(** * Blink Tac Toe: the game engine of [app/page.tsx]

    A shallow embedding of the state machine held by the [BlinkTacToe]
    component: the nine-slot board, [checkWinner], [ageEmojis],
    [handleCellClick], [resetGame] and the effect that re-evaluates the
    outcome whenever the board changes.  React state becomes one record
    that is passed explicitly; the timers created by
    [setTimeout(ageEmojis, 500)] become a counter of callbacks that have
    been scheduled and have not fired yet.  Sound and rendering are left
    out: they read the state and never write it. *)

From Stdlib Require Import ZArith String.
From stdpp Require Import base option list relations.

Local Open Scope Z_scope.
Local Open Scope nat_scope.

(** ** Data model *)

(** [player: 1 | 2] *)
Inductive Player : Type := P1 | P2.

#[global] Instance Player_eq_dec : EqDecision Player.
Proof. solve_decision. Defined.

(** [type CellValue = { emoji; player; turnsLeft; id }] *)
Record CellValue : Type := mkCell {
  emoji : string;
  player : Player;
  turnsLeft : Z;
  id : string
}.

(** [type GameState = "playing" | "won" | "draw"] *)
Inductive GameState : Type := Playing | Won | Draw.

#[global] Instance GameState_eq_dec : EqDecision GameState.
Proof. solve_decision. Defined.

(** [(CellValue | null)[]] *)
Abbreviation Board := (list (option CellValue)).

(** [emojiCounts : { 1: number, 2: number }] *)
Record EmojiCounts : Type := mkCounts { count1 : nat; count2 : nat }.

(** [gameStats : { moves, vanishedEmojis }] *)
Record GameStats : Type := mkStats { moves : nat; vanishedEmojis : nat }.

(** The [useState] cells of the component that the engine reads and
    writes, and [pendingAging], the number of [setTimeout(ageEmojis, 500)]
    callbacks that are scheduled and have not run yet. *)
Record State : Type := mkState {
  board : Board;
  currentPlayer : Player;
  gameState : GameState;
  winner : option Player;
  emojiCounts : EmojiCounts;
  gameStats : GameStats;
  pendingAging : nat
}.

Definition PLAYER_EMOJIS (p : Player) : list string :=
  match p with
  | P1 => ["🔥"; "⚡"; "💫"; "🌟"; "✨"]%string
  | P2 => ["🌊"; "❄️"; "🌙"; "💎"; "🔮"]%string
  end.

Definition BLINK_DURATION : Z := 3.
Definition MAX_EMOJIS_PER_PLAYER : nat := 6.

(** ** Small accessors and field updates *)

(** [emojiCounts[p]] *)
Definition getCount (counts : EmojiCounts) (p : Player) : nat :=
  match p with P1 => count1 counts | P2 => count2 counts end.

(** [{ ...prev, [p]: prev[p] + 1 }] *)
Definition incCount (counts : EmojiCounts) (p : Player) : EmojiCounts :=
  match p with
  | P1 => mkCounts (count1 counts + 1) (count2 counts)
  | P2 => mkCounts (count1 counts) (count2 counts + 1)
  end.

(** [currentPlayer === 1 ? 2 : 1] *)
Definition otherPlayer (p : Player) : Player :=
  match p with P1 => P2 | P2 => P1 end.

(** [board[i]]: the slot, where an index past the end reads [undefined],
    which is falsy like [null]. *)
Definition cellAt (b : Board) (i : nat) : option CellValue :=
  default None (b !! i).

(** Truthiness of a slot: [cell] used as a condition. *)
Definition occupied (cell : option CellValue) : bool :=
  match cell with Some _ => true | None => false end.

(** [{ ...cell, turnsLeft: t }] *)
Definition withTurnsLeft (cell : CellValue) (t : Z) : CellValue :=
  mkCell (emoji cell) (player cell) t (id cell).

Definition setBoard (b : Board) (st : State) : State :=
  mkState b (currentPlayer st) (gameState st) (winner st)
          (emojiCounts st) (gameStats st) (pendingAging st).

Definition setCurrentPlayer (p : Player) (st : State) : State :=
  mkState (board st) p (gameState st) (winner st)
          (emojiCounts st) (gameStats st) (pendingAging st).

Definition setGameState (g : GameState) (st : State) : State :=
  mkState (board st) (currentPlayer st) g (winner st)
          (emojiCounts st) (gameStats st) (pendingAging st).

Definition setWinner (w : option Player) (st : State) : State :=
  mkState (board st) (currentPlayer st) (gameState st) w
          (emojiCounts st) (gameStats st) (pendingAging st).

Definition setEmojiCounts (c : EmojiCounts) (st : State) : State :=
  mkState (board st) (currentPlayer st) (gameState st) (winner st)
          c (gameStats st) (pendingAging st).

Definition setGameStats (s : GameStats) (st : State) : State :=
  mkState (board st) (currentPlayer st) (gameState st) (winner st)
          (emojiCounts st) s (pendingAging st).

Definition setPendingAging (n : nat) (st : State) : State :=
  mkState (board st) (currentPlayer st) (gameState st) (winner st)
          (emojiCounts st) (gameStats st) n.

(** The values given to [useState] on mount; no timer is pending. *)
Definition initialState : State :=
  mkState (replicate 9 None) P1 Playing None (mkCounts 0 0) (mkStats 0 0) 0.

(** ** [checkWinner] *)

Definition lines : list (nat * nat * nat) :=
  [ (0, 1, 2); (3, 4, 5); (6, 7, 8);   (* rows *)
    (0, 3, 6); (1, 4, 7); (2, 5, 8);   (* columns *)
    (0, 4, 8); (2, 4, 6) ].            (* diagonals *)

(** The condition of the [if] inside the loop, for one line [a, b, c];
    when it holds, the value returned is [board[a].player]. *)
Definition lineOwner (b : Board) (line : nat * nat * nat) : option Player :=
  let '(i, j, k) := line in
  match cellAt b i, cellAt b j, cellAt b k with
  | Some x, Some y, Some z =>
      if bool_decide (player x = player y) && bool_decide (player y = player z)
      then Some (player x) else None
  | _, _, _ => None
  end.

(** [for (const [a, b, c] of lines) { if (...) return board[a].player }
    return null] *)
Fixpoint firstOwner (b : Board) (ls : list (nat * nat * nat)) : option Player :=
  match ls with
  | [] => None
  | line :: rest =>
      match lineOwner b line with
      | Some p => Some p
      | None => firstOwner b rest
      end
  end.

Definition checkWinner (b : Board) : option Player := firstOwner b lines.

(** ** [ageEmojis] *)

(** The callback of the first [prevBoard.map]. *)
Definition decrementCell (cell : option CellValue) : option CellValue :=
  match cell with
  | Some c => if (0 <? turnsLeft c)%Z
              then Some (withTurnsLeft c (turnsLeft c - 1)%Z)
              else Some c
  | None => None
  end.

(** [cell && cell.turnsLeft === 0] *)
Definition expired (cell : option CellValue) : bool :=
  match cell with
  | Some c => (turnsLeft c =? 0)%Z
  | None => false
  end.

(** [Array.prototype.filter] with a callback that also takes the index;
    [index] is the index of the head of [l]. *)
Fixpoint filterFrom {A : Type} (f : A -> nat -> bool) (index : nat)
    (l : list A) : list A :=
  match l with
  | [] => []
  | x :: rest =>
      if f x index then x :: filterFrom f (S index) rest
      else filterFrom f (S index) rest
  end.

(** The callback of the last [newBoard.map]. *)
Definition dropExpired (cell : option CellValue) : option CellValue :=
  if expired cell then None else cell.

(** The updater given to [setBoard], with the [setGameStats] it performs. *)
Definition ageEmojis (st : State) : State :=
  let prevBoard := board st in
  let newBoard := map decrementCell prevBoard in
  let vanishedCount :=
    length (filterFrom
              (fun cell index => expired cell && occupied (cellAt prevBoard index))
              0 newBoard) in
  let st1 :=
    if 0 <? vanishedCount
    then setGameStats (mkStats (moves (gameStats st))
                               (vanishedEmojis (gameStats st) + vanishedCount)) st
    else st in
  setBoard (map dropExpired newBoard) st1.

(** ** The outcome effect

    [useEffect(() => { if (gameState === "playing") ... }, [board, ...])]:
    it runs after every commit in which the board, the game state or the
    move count changed. *)
Definition outcomeEffect (st : State) : State :=
  match gameState st with
  | Playing =>
      match checkWinner (board st) with
      | Some w => setGameState Won (setWinner (Some w) st)
      | None =>
          if forallb (fun cell => negb (occupied cell)) (board st)
             && (0 <? moves (gameStats st))
          then setGameState Draw st
          else st
      end
  | _ => st
  end.

(** ** [handleCellClick] *)

Definition playerDigit (p : Player) : string :=
  match p with P1 => "1"%string | P2 => "2"%string end.

(** [const newCell: CellValue = { emoji: randomEmoji, player: currentPlayer,
    turnsLeft: BLINK_DURATION, id: ... }], where [rnd] is the value of
    [Math.floor(Math.random() * PLAYER_EMOJIS[currentPlayer].length)] and
    [stamp] the text of [`${Date.now()}-${Math.random()}`]. *)
Definition newCell (rnd : nat) (stamp : string) (st : State) : CellValue :=
  let randomEmoji := nth rnd (PLAYER_EMOJIS (currentPlayer st)) ""%string in
  mkCell randomEmoji (currentPlayer st) BLINK_DURATION
         (playerDigit (currentPlayer st) ++ "-" ++ stamp)%string.

(** [index] is the slot that was clicked.  The result is [None] when the
    handler returns at its first [if] without any state update, and the
    updated state otherwise.  The handler is attached to the nine buttons
    made by [board.map], so [index] is below 9; for such an index and a
    board of nine slots [newBoard[index] = newCell] is the list update
    used here. *)
Definition handleCellClick (index rnd : nat) (stamp : string) (st : State)
    : option State :=
  if occupied (cellAt (board st) index)
     || negb (bool_decide (gameState st = Playing))
     || (MAX_EMOJIS_PER_PLAYER <=? getCount (emojiCounts st) (currentPlayer st))
  then None
  else
    let newBoard := <[index := Some (newCell rnd stamp st)]> (board st) in
    let st1 :=
      setGameStats (mkStats (moves (gameStats st) + 1)
                            (vanishedEmojis (gameStats st)))
        (setEmojiCounts (incCount (emojiCounts st) (currentPlayer st))
           (setBoard newBoard st)) in
    match checkWinner newBoard with
    | Some w => Some (setGameState Won (setWinner (Some w) st1))
    | None =>
        if forallb occupied newBoard
        then Some (setGameState Draw st1)
        else Some (setPendingAging (pendingAging st1 + 1)
                     (setCurrentPlayer (otherPlayer (currentPlayer st)) st1))
    end.

(** ** [resetGame]

    The timers are not cleared: callbacks scheduled before the reset still
    fire after it. *)
Definition resetGame (st : State) : State :=
  mkState (replicate 9 None) P1 Playing None (mkCounts 0 0) (mkStats 0 0)
          (pendingAging st).

(** ** Events *)

Inductive Event : Type :=
| Click (index rnd : nat) (stamp : string)
| Tick
| Reset.

(** A click: a rejected one changes nothing, so nothing is rendered and
    the effect does not run; an accepted one is followed by the effect. *)
Definition click (index rnd : nat) (stamp : string) (st : State) : State :=
  match handleCellClick index rnd stamp st with
  | None => st
  | Some st' => outcomeEffect st'
  end.

(** A timer fires: one scheduled [ageEmojis] runs, then the effect.
    Without a scheduled callback nothing happens. *)
Definition fireTimer (st : State) : State :=
  match pendingAging st with
  | 0 => st
  | S n => outcomeEffect (ageEmojis (setPendingAging n st))
  end.

Definition applyEvent (ev : Event) (st : State) : State :=
  match ev with
  | Click index rnd stamp => click index rnd stamp st
  | Tick => fireTimer st
  | Reset => outcomeEffect (resetGame st)
  end.

(** Events are applied from the head of the list. *)
Definition run (evs : list Event) (st : State) : State :=
  foldl (fun s ev => applyEvent ev s) st evs.

(** What the page can produce: a click on one of the nine buttons, with a
    palette index below the palette's length. *)
Definition eventOk (ev : Event) : Prop :=
  match ev with
  | Click index rnd _ => index < 9 /\ rnd < 5
  | Tick | Reset => True
  end.

Inductive reachable : State -> Prop :=
| reachable_init : reachable initialState
| reachable_step st ev :
    reachable st -> eventOk ev -> reachable (applyEvent ev st).

(** One step of a single game: a click or a timer, no reset. *)
Inductive gameStep : State -> State -> Prop :=
| gameStep_click st index rnd stamp :
    index < 9 -> rnd < 5 -> gameStep st (click index rnd stamp st)
| gameStep_tick st : gameStep st (fireTimer st).

Definition gameSteps : State -> State -> Prop := rtc gameStep.

(** ** Predicates used in the statements *)

(** The three slots of [line] hold cells that all belong to [p]. *)
Definition lineWonBy (b : Board) (line : nat * nat * nat) (p : Player) : Prop :=
  exists x y z,
    b !! line.1.1 = Some (Some x) /\ b !! line.1.2 = Some (Some y) /\
    b !! line.2 = Some (Some z) /\
    player x = p /\ player y = p /\ player z = p.

Definition lineWon (b : Board) (line : nat * nat * nat) : Prop :=
  exists p, lineWonBy b line p.

Definition ownedBy (p : Player) (cell : option CellValue) : bool :=
  match cell with
  | Some c => bool_decide (player c = p)
  | None => false
  end.

(** Number of live cells of [p] on the board. *)
Definition liveOwned (p : Player) (b : Board) : nat :=
  length (List.filter (ownedBy p) b).

(** Number of live cells on the board. *)
Definition liveCount (b : Board) : nat := length (List.filter occupied b).

(** Every live cell has a positive lifetime. *)
Definition livePositive (b : Board) : Prop :=
  forall i c, b !! i = Some (Some c) -> (0 < turnsLeft c)%Z.

Definition allEmpty (b : Board) : Prop := Forall (fun cell => cell = None) b.

Definition hasEmptySlot (b : Board) : Prop := exists i, b !! i = Some None.

(** What one aging pass leaves in a slot that held [c], when lifetimes
    are counted down by one and a cell at zero is removed. *)
Definition agedCell (c : CellValue) : option CellValue :=
  if (turnsLeft c - 1 =? 0)%Z then None
  else Some (withTurnsLeft c (turnsLeft c - 1)%Z).

(** Number of slots that hold a cell in [before] and none in [after]. *)
Definition removedCells (before after : Board) : nat :=
  length (List.filter (fun pr => occupied pr.1 && negb (occupied pr.2))
                      (combine before after)).

Definition ticks (n : nat) : list Event := replicate n Tick.

(** Player 1 clicks 0, 1 and 2, player 2 clicks [j1] and [j2] in between;
    [a1] .. [a4] timers fire between consecutive clicks.  [rnd k] and
    [stamp k] are the random values drawn by the [k]-th click. *)
Definition topRowRun (j1 j2 a1 a2 a3 a4 : nat) (rnd : nat -> nat)
    (stamp : nat -> string) : list Event :=
  Click 0 (rnd 1) (stamp 1) :: ticks a1 ++
  Click j1 (rnd 2) (stamp 2) :: ticks a2 ++
  Click 1 (rnd 3) (stamp 3) :: ticks a3 ++
  Click j2 (rnd 4) (stamp 4) :: ticks a4 ++
  [Click 2 (rnd 5) (stamp 5)].

(** ** Sample runs *)

(** Three clicks in a row, before the first timer fires, then two of the
    three timers: every cell on the board has one turn left and one timer
    is still pending. *)
Definition threeQuickMoves : list Event :=
  [Click 0 0 "a"; Click 1 0 "b"; Click 2 0 "c"; Tick; Tick]%string.

(** Eight clicks in a row that leave slot 4 free, with slots 0, 2, 7, 8
    held by player 1 and 1, 3, 5, 6 by player 2. *)
Definition eightQuickMoves : list Event :=
  [Click 0 1 "a"; Click 1 1 "b"; Click 2 2 "c"; Click 3 2 "d";
   Click 7 3 "e"; Click 5 3 "f"; Click 8 4 "g"; Click 6 4 "h"]%string.

(** Each click is followed by its timer: the [k]-th move goes to slot
    [k mod 9], twelve moves in all, six for each player. *)
Definition twelveMoves : list Event :=
  [Click 0 0 "a"; Tick; Click 1 0 "b"; Tick; Click 2 0 "c"; Tick;
   Click 3 0 "d"; Tick; Click 4 0 "e"; Tick; Click 5 0 "f"; Tick;
   Click 6 0 "g"; Tick; Click 7 0 "h"; Tick; Click 8 0 "i"; Tick;
   Click 0 0 "j"; Tick; Click 1 0 "k"; Tick; Click 2 0 "l"; Tick]%string.

(** Player 1 clicks 0, 1 and 2, player 2 clicks 8 and 7, and every click
    is followed by its timer before the next click. *)
Definition topRowSlowly : list Event :=
  [Click 0 0 "a"; Tick; Click 8 0 "b"; Tick; Click 1 0 "c"; Tick;
   Click 7 0 "d"; Tick; Click 2 0 "e"]%string.

(** A full board without a winning triple, still in [Playing] with one
    timer pending.  No run produces it: [handleCellClick] declares the
    draw itself when a click fills the board. *)
Definition fullBoardState : State :=
  let cell p := Some (mkCell "x"%string p 3%Z "y"%string) in
  mkState [cell P1; cell P2; cell P1;
           cell P1; cell P2; cell P2;
           cell P2; cell P1; cell P1]
          P2 Playing None (mkCounts 5 4) (mkStats 9 0) 1.

(** A board with one cell whose lifetime is already 0 and one whose
    lifetime is negative; no run produces such cells. *)
Definition staleBoardState : State :=
  mkState [Some (mkCell "x"%string P1 0%Z "y"%string);
           Some (mkCell "x"%string P2 (-1)%Z "z"%string)]
          P1 Playing None (mkCounts 1 1) (mkStats 2 0) 1.

(** The invariant carried along every run. *)
Record stateInv (st : State) : Prop := mkInv {
  inv_length : length (board st) = 9;
  inv_lifetime : forall i c, board st !! i = Some (Some c) ->
                   (0 < turnsLeft c <= BLINK_DURATION)%Z;
  inv_owned : forall p, liveOwned p (board st) <= getCount (emojiCounts st) p;
  inv_count : forall p, getCount (emojiCounts st) p <= MAX_EMOJIS_PER_PLAYER
}.

(** ** What the page derives from the state *)

(** The [disabled] attribute of the button that shows [cell]:
    [!!cell || gameState !== "playing" ||
     emojiCounts[currentPlayer] >= MAX_EMOJIS_PER_PLAYER]. *)
Definition cellDisabled (cell : option CellValue) (st : State) : bool :=
  occupied cell
  || negb (bool_decide (gameState st = Playing))
  || (MAX_EMOJIS_PER_PLAYER <=? getCount (emojiCounts st) (currentPlayer st)).

(** The "Active Emojis" badge: [board.filter((cell) => cell !== null).length]. *)
Definition activeEmojis (b : Board) : nat :=
  length (List.filter
            (fun cell => match cell with Some _ => true | None => false end) b).

(** The "Emoji limit reached! Wait for some to vanish." badge: it is
    rendered inside the [gameState === "playing"] block when
    [emojiCounts[currentPlayer] >= MAX_EMOJIS_PER_PLAYER]. *)
Definition limitBadgeShown (st : State) : bool :=
  bool_decide (gameState st = Playing)
  && (MAX_EMOJIS_PER_PLAYER <=? getCount (emojiCounts st) (currentPlayer st)).

(** ** Schedules and symmetries used in the statements *)

(** One move played slowly: the click, then the timer it scheduled, before
    anything else happens. *)
Definition turn (index rnd : nat) (stamp : string) (st : State) : State :=
  fireTimer (click index rnd stamp st).

Definition playTurns (ts : list (nat * nat * string)) (st : State) : State :=
  foldl (fun s t => turn t.1.1 t.1.2 t.2 s) st ts.

(** [n] aging passes in a row. *)
Definition agePasses (n : nat) (st : State) : State := Nat.iter n ageEmojis st.

(** The state right after [resetGame] with [n] timers still pending. *)
Definition freshState (n : nat) : State :=
  mkState (replicate 9 None) P1 Playing None (mkCounts 0 0) (mkStats 0 0) n.

(** The board turned a quarter clockwise, and the board mirrored left to
    right: slot [i] of the result shows the slot of [b] listed at [i]. *)
Definition rotate (b : Board) : Board :=
  map (cellAt b) [6; 3; 0; 7; 4; 1; 8; 5; 2].

Definition mirror (b : Board) : Board :=
  map (cellAt b) [2; 1; 0; 5; 4; 3; 8; 7; 6].

(** Player [p] holds one of the eight lines. *)
Definition hasLine (p : Player) (b : Board) : Prop :=
  exists l, l ∈ lines /\ lineWonBy b l p.

(** Player 1 takes the top row in five quick clicks. *)
Definition topRowQuickly : list Event :=
  [Click 0 0 "a"; Click 8 0 "b"; Click 1 1 "c"; Click 7 1 "d";
   Click 2 2 "e"]%string.

(** Five moves played slowly, the last three on the top row. *)
Definition fiveSlowTurns : list (nat * nat * string) :=
  [(4, 0, "a"); (8, 1, "b"); (0, 2, "c"); (1, 3, "d"); (2, 4, "e")]%string.

(** What the statistics panel and the status line rely on. *)
Record pageInv (st : State) : Prop := mkPageInv {
  pi_moves : moves (gameStats st)
             = count1 (emojiCounts st) + count2 (emojiCounts st);
  pi_balance : moves (gameStats st)
               = vanishedEmojis (gameStats st) + activeEmojis (board st);
  pi_lead : count2 (emojiCounts st) <= count1 (emojiCounts st)
            <= count2 (emojiCounts st) + 1;
  pi_turn : gameState st = Playing ->
            (currentPlayer st = P1 <->
             count1 (emojiCounts st) = count2 (emojiCounts st));
  pi_winner : match gameState st with
              | Won => exists w, winner st = Some w /\
                                 3 <= getCount (emojiCounts st) w
              | _ => winner st = None
              end;
  pi_palette : forall i c, board st !! i = Some (Some c) ->
                 In (emoji c) (PLAYER_EMOJIS (player c))
}.

(** The shape of the board between two slowly played moves. *)
Record slowInv (st : State) : Prop := mkSlowInv {
  si_playing : gameState st = Playing;
  si_winner : winner st = None;
  si_pending : pendingAging st = 0;
  si_length : length (board st) = 9;
  si_cells : forall i c, board st !! i = Some (Some c) ->
               (player c = currentPlayer st /\ turnsLeft c = 1%Z) \/
               (player c = otherPlayer (currentPlayer st) /\ turnsLeft c = 2%Z);
  si_owned : forall p, liveOwned p (board st) <= 1
}.

(** ** Tactics *)

(** Case split on a number that the context bounds by 2. *)
Ltac split_small n :=
  first [ is_var n; destruct n as [|[|[|n]]]; try lia | idtac ].

(** Case split on a slot index that the context bounds by 8. *)
Ltac split_slot j :=
  destruct j as [|[|[|[|[|[|[|[|[|j]]]]]]]]]; try lia.

(** Every event of an explicit list is one the page can produce. *)
Ltac events_ok :=
  repeat (constructor; [simpl; try split; try lia | ]); constructor.

(** Try each of the eight lines as the witness of a goal [exists l, l ∈ lines
    /\ _] and close the second part with [tac]. *)
Ltac pick_line tac :=
  first
    [ exists (0, 1, 2); split; [repeat constructor | tac]
    | exists (3, 4, 5); split; [repeat constructor | tac]
    | exists (6, 7, 8); split; [repeat constructor | tac]
    | exists (0, 3, 6); split; [repeat constructor | tac]
    | exists (1, 4, 7); split; [repeat constructor | tac]
    | exists (2, 5, 8); split; [repeat constructor | tac]
    | exists (0, 4, 8); split; [repeat constructor | tac]
    | exists (2, 4, 6); split; [repeat constructor | tac] ].

(** * Properties *)

(** ** Reading the board *)

Lemma cellAt_Some (b : Board) i c :
  cellAt b i = Some c <-> b !! i = Some (Some c).
Proof.
  unfold cellAt. destruct (b !! i) as [[x|]|]; simpl; split; congruence.
Qed.

Lemma occupied_cellAt (b : Board) i :
  occupied (cellAt b i) = true <-> exists c, b !! i = Some (Some c).
Proof.
  destruct (cellAt b i) as [c|] eqn:E; simpl.
  - apply cellAt_Some in E. split; eauto.
  - split; [discriminate|]. intros [c Hc]. apply cellAt_Some in Hc. congruence.
Qed.

Lemma cellAt_free (b : Board) i :
  i < length b -> occupied (cellAt b i) = false -> b !! i = Some None.
Proof.
  intros Hi. unfold cellAt. destruct (b !! i) as [[x|]|] eqn:E; simpl; try done.
  apply lookup_ge_None in E. lia.
Qed.

(** ** [checkWinner] *)

Lemma lineOwner_Some (b : Board) line p :
  lineOwner b line = Some p <-> lineWonBy b line p.
Proof.
  destruct line as [[i j] k]. unfold lineOwner, lineWonBy; simpl. split.
  - destruct (cellAt b i) as [x|] eqn:Ei; [|discriminate].
    destruct (cellAt b j) as [y|] eqn:Ej; [|discriminate].
    destruct (cellAt b k) as [z|] eqn:Ek; [|discriminate].
    apply cellAt_Some in Ei, Ej, Ek.
    destruct (bool_decide (player x = player y)) eqn:Hxy; [|discriminate].
    destruct (bool_decide (player y = player z)) eqn:Hyz; [|discriminate].
    apply bool_decide_eq_true in Hxy, Hyz. simpl. intros [= <-].
    exists x, y, z. repeat split; congruence.
  - intros (x & y & z & Hx & Hy & Hz & <- & Hpy & Hpz).
    apply cellAt_Some in Hx, Hy, Hz. rewrite Hx, Hy, Hz.
    rewrite !bool_decide_eq_true_2 by congruence. reflexivity.
Qed.

Lemma lineOwner_None (b : Board) line :
  lineOwner b line = None <-> ~ lineWon b line.
Proof.
  split.
  - intros HN [p Hp]. apply lineOwner_Some in Hp. congruence.
  - intros HN. destruct (lineOwner b line) as [p|] eqn:E; [|done].
    exfalso. apply HN. exists p. by apply lineOwner_Some.
Qed.

Lemma firstOwner_Some (b : Board) ls p :
  firstOwner b ls = Some p <->
  exists pre line post,
    ls = pre ++ line :: post /\ lineWonBy b line p /\
    forall l, l ∈ pre -> ~ lineWon b l.
Proof.
  induction ls as [|l ls IH]; simpl.
  - split; [discriminate|]. intros (pre & line & post & E & _).
    by destruct pre.
  - destruct (lineOwner b l) as [q|] eqn:El.
    + split.
      * intros [= ->]. exists [], l, ls. split; [done|].
        split; [by apply lineOwner_Some|]. intros l' Hl'. by apply elem_of_nil in Hl'.
      * intros (pre & line & post & E & Hw & Hpre).
        destruct pre as [|l' pre]; simpl in E; injection E as <- E.
        -- apply lineOwner_Some in Hw. congruence.
        -- exfalso. apply (Hpre l); [left|]. exists q. by apply lineOwner_Some.
    + rewrite IH. split.
      * intros (pre & line & post & -> & Hw & Hpre).
        exists (l :: pre), line, post. split; [done|]. split; [done|].
        intros l' [->|Hin]%elem_of_cons; [by apply lineOwner_None|by apply Hpre].
      * intros (pre & line & post & E & Hw & Hpre).
        destruct pre as [|l' pre]; simpl in E; injection E as <- E.
        -- apply lineOwner_Some in Hw. congruence.
        -- exists pre, line, post. split; [done|]. split; [done|].
           intros l'' Hin. apply Hpre. by right.
Qed.

Lemma firstOwner_None (b : Board) ls :
  firstOwner b ls = None <-> forall l, l ∈ ls -> ~ lineWon b l.
Proof.
  induction ls as [|l ls IH]; simpl.
  - split; [|done]. intros _ l Hl. by apply elem_of_nil in Hl.
  - destruct (lineOwner b l) as [q|] eqn:El.
    + split; [discriminate|]. intros H. exfalso. apply (H l); [left|].
      exists q. by apply lineOwner_Some.
    + rewrite IH. split.
      * intros H l' [->|Hin]%elem_of_cons; [by apply lineOwner_None|by apply H].
      * intros H l' Hin. apply H. by right.
Qed.

(** C8. [checkWinner] goes through exactly eight triples, the three rows,
    then the three columns, then the two diagonals; it returns [p] exactly
    when some triple is held entirely by [p] and no triple before it in
    that order is held by a single player, and it returns no winner
    exactly when no triple is held by a single player. *)
Theorem checkWinner_first_triple (b : Board) :
  lines = [(0, 1, 2); (3, 4, 5); (6, 7, 8)] ++
          [(0, 3, 6); (1, 4, 7); (2, 5, 8)] ++
          [(0, 4, 8); (2, 4, 6)] /\
  length lines = 8 /\
  (forall p, checkWinner b = Some p <->
     exists pre line post,
       lines = pre ++ line :: post /\ lineWonBy b line p /\
       forall l, l ∈ pre -> ~ lineWon b l) /\
  (checkWinner b = None <-> forall l, l ∈ lines -> ~ lineWon b l).
Proof.
  split; [reflexivity|]. split; [reflexivity|]. split.
  - intros p. apply firstOwner_Some.
  - apply firstOwner_None.
Qed.

(** ** [ageEmojis] *)

Lemma board_ageEmojis (st : State) :
  board (ageEmojis st) = map dropExpired (map decrementCell (board st)).
Proof. unfold ageEmojis. by destruct (0 <? _). Qed.

Lemma ageEmojis_fields (st : State) :
  currentPlayer (ageEmojis st) = currentPlayer st /\
  gameState (ageEmojis st) = gameState st /\
  winner (ageEmojis st) = winner st /\
  emojiCounts (ageEmojis st) = emojiCounts st /\
  moves (gameStats (ageEmojis st)) = moves (gameStats st) /\
  pendingAging (ageEmojis st) = pendingAging st.
Proof. unfold ageEmojis. by destruct (0 <? _). Qed.

Lemma lookup_map {A B : Type} (f : A -> B) (l : list A) i :
  map f l !! i = f <$> (l !! i).
Proof. revert i. induction l as [|x l IH]; intros [|i]; simpl; auto. Qed.

Lemma ageEmojis_lookup (st : State) i :
  board (ageEmojis st) !! i = (fun cell => dropExpired (decrementCell cell)) <$> (board st !! i).
Proof.
  rewrite board_ageEmojis, !lookup_map. by destruct (board st !! i).
Qed.

Lemma aged_positive (c : CellValue) :
  (0 < turnsLeft c)%Z -> dropExpired (decrementCell (Some c)) = agedCell c.
Proof.
  intros Hpos. unfold decrementCell, dropExpired, agedCell.
  destruct (0 <? turnsLeft c)%Z eqn:E; [|apply Z.ltb_ge in E; lia].
  simpl. by destruct (turnsLeft c - 1 =? 0)%Z.
Qed.

Lemma ageEmojis_lookup_live (st : State) i c :
  board st !! i = Some (Some c) -> (0 < turnsLeft c)%Z ->
  board (ageEmojis st) !! i = Some (agedCell c).
Proof.
  intros Hi Hpos. rewrite ageEmojis_lookup, Hi.
  change (Some (dropExpired (decrementCell (Some c))) = Some (agedCell c)).
  by rewrite aged_positive.
Qed.

Lemma ageEmojis_lookup_inv (st : State) i c' :
  board (ageEmojis st) !! i = Some (Some c') ->
  exists c, board st !! i = Some (Some c).
Proof.
  rewrite ageEmojis_lookup.
  destruct (board st !! i) as [[c|]|]; [eauto|discriminate|discriminate].
Qed.

Lemma expired_occupied (cell : option CellValue) :
  expired cell = true -> occupied cell = true.
Proof. by destruct cell. Qed.

Lemma occupied_decrementCell (cell : option CellValue) :
  occupied (decrementCell cell) = occupied cell.
Proof. destruct cell as [c|]; simpl; [|done]. by destruct (0 <? turnsLeft c)%Z. Qed.

(** The index test [prevBoard[index]] of the filter never rejects a slot
    that passed [cell && cell.turnsLeft === 0]. *)
Lemma vanishedCount_expired (prev l : Board) k :
  (forall j, cellAt prev (k + j) = cellAt l j) ->
  length (filterFrom
            (fun cell index => expired cell && occupied (cellAt prev index))
            k (map decrementCell l))
  = length (List.filter expired (map decrementCell l)).
Proof.
  revert k. induction l as [|x l IH]; intros k Hk; simpl; [done|].
  assert (IH' := IH (S k)). 
  assert (Hx : cellAt prev k = x).
  { specialize (Hk 0). by rewrite Nat.add_0_r in Hk. }
  rewrite Hx.
  destruct (expired (decrementCell x)) eqn:E; simpl.
  - apply expired_occupied in E. rewrite occupied_decrementCell in E.
    rewrite E. simpl. f_equal. apply IH'. intros j.
    specialize (Hk (S j)). by rewrite Nat.add_succ_r in Hk.
  - apply IH'. intros j.
    specialize (Hk (S j)). by rewrite Nat.add_succ_r in Hk.
Qed.

Lemma dropExpired_expired (cell : option CellValue) :
  expired cell = true -> dropExpired cell = None.
Proof. unfold dropExpired. by intros ->. Qed.

Lemma dropExpired_live (cell : option CellValue) :
  expired cell = false -> dropExpired cell = cell.
Proof. unfold dropExpired. by intros ->. Qed.

Lemma removedCells_aged (b : Board) :
  removedCells b (map dropExpired (map decrementCell b))
  = length (List.filter expired (map decrementCell b)).
Proof.
  unfold removedCells. induction b as [|x b IH]; simpl; [done|].
  destruct (expired (decrementCell x)) eqn:E.
  - rewrite (dropExpired_expired _ E).
    apply expired_occupied in E. rewrite occupied_decrementCell in E.
    rewrite E. simpl. by f_equal.
  - rewrite (dropExpired_live _ E), occupied_decrementCell.
    destruct (occupied x); simpl; exact IH.
Qed.

Lemma liveCount_aged (b : Board) :
  liveCount b
  = liveCount (map dropExpired (map decrementCell b))
    + removedCells b (map dropExpired (map decrementCell b)).
Proof.
  unfold liveCount, removedCells. induction b as [|x b IH]; simpl; [done|].
  destruct (expired (decrementCell x)) eqn:E.
  - rewrite (dropExpired_expired _ E).
    apply expired_occupied in E. rewrite occupied_decrementCell in E.
    rewrite E. simpl. lia.
  - rewrite (dropExpired_live _ E), occupied_decrementCell.
    destruct (occupied x); simpl; lia.
Qed.

Lemma vanishedEmojis_ageEmojis (st : State) :
  vanishedEmojis (gameStats (ageEmojis st))
  = vanishedEmojis (gameStats st) + removedCells (board st) (board (ageEmojis st)).
Proof.
  rewrite board_ageEmojis, removedCells_aged.
  rewrite <- (vanishedCount_expired (board st) (board st) 0) by done.
  unfold ageEmojis.
  destruct (0 <? _) eqn:E; simpl; [done|].
  apply Nat.ltb_ge in E. lia.
Qed.

(** C5. On a board whose live cells all have a positive lifetime, which
    is every board the game holds ([reachable_stateInv]), one aging pass
    keeps the nine slots in place, leaves an empty slot empty, takes one
    off the lifetime of every live cell, empties exactly the slots whose
    lifetime thereby reaches 0 and keeps the others; the vanished-emojis
    statistic grows by the number of cells removed, and nothing else in
    the statistics changes. *)
Theorem ageEmojis_pass (st : State) :
  livePositive (board st) ->
  length (board (ageEmojis st)) = length (board st) /\
  (forall i, board st !! i = Some None -> board (ageEmojis st) !! i = Some None) /\
  (forall i c, board st !! i = Some (Some c) ->
     board (ageEmojis st) !! i = Some (agedCell c) /\
     (agedCell c = None <-> (turnsLeft c - 1 = 0)%Z) /\
     ((0 < turnsLeft c - 1)%Z ->
      agedCell c = Some (withTurnsLeft c (turnsLeft c - 1)%Z))) /\
  vanishedEmojis (gameStats (ageEmojis st))
    = vanishedEmojis (gameStats st) + removedCells (board st) (board (ageEmojis st)) /\
  liveCount (board st)
    = liveCount (board (ageEmojis st)) + removedCells (board st) (board (ageEmojis st)) /\
  moves (gameStats (ageEmojis st)) = moves (gameStats st).
Proof.
  intros Hpos. split; [by rewrite board_ageEmojis, !length_map|].
  split; [intros i Hi; by rewrite ageEmojis_lookup, Hi|].
  split.
  { intros i c Hi. split.
    - apply ageEmojis_lookup_live; eauto.
    - unfold agedCell. destruct (turnsLeft c - 1 =? 0)%Z eqn:E.
      + apply Z.eqb_eq in E. split; [done|lia].
      + apply Z.eqb_neq in E. split; [|done]. split; [done|lia]. }
  split; [apply vanishedEmojis_ageEmojis|].
  split; [rewrite board_ageEmojis; apply liveCount_aged|].
  apply ageEmojis_fields.
Qed.

(** C9. A slot that holds a cell with lifetime 1 is empty after one
    aging pass and is still empty after a second one. *)
Theorem ageEmojis_twice_lifetime_one (st : State) i c :
  board st !! i = Some (Some c) ->
  turnsLeft c = 1%Z ->
  board (ageEmojis st) !! i = Some None /\
  board (ageEmojis (ageEmojis st)) !! i = Some None.
Proof.
  intros Hi Ht.
  assert (H1 : board (ageEmojis st) !! i = Some None).
  { rewrite ageEmojis_lookup, Hi. simpl. unfold dropExpired; simpl.
    by rewrite Ht. }
  split; [done|]. by rewrite ageEmojis_lookup, H1.
Qed.

(** ** The outcome effect *)

Lemma outcomeEffect_fields (st : State) :
  board (outcomeEffect st) = board st /\
  currentPlayer (outcomeEffect st) = currentPlayer st /\
  emojiCounts (outcomeEffect st) = emojiCounts st /\
  gameStats (outcomeEffect st) = gameStats st /\
  pendingAging (outcomeEffect st) = pendingAging st.
Proof.
  unfold outcomeEffect. destruct (gameState st); try done.
  destruct (checkWinner (board st)); [done|].
  by destruct (_ && _).
Qed.

Lemma outcomeEffect_over (st : State) :
  gameState st <> Playing -> outcomeEffect st = st.
Proof. unfold outcomeEffect. by destruct (gameState st). Qed.

Lemma allEmpty_forallb (b : Board) :
  forallb (fun cell => negb (occupied cell)) b = true <-> allEmpty b.
Proof.
  unfold allEmpty. rewrite forallb_forall, Forall_forall. split.
  - intros H x Hx. apply list_elem_of_In, H in Hx. by destruct x.
  - intros H x Hx. apply list_elem_of_In, H in Hx. by subst.
Qed.

Lemma outcomeEffect_playing (st : State) :
  gameState st = Playing ->
  (forall w, checkWinner (board st) = Some w ->
     gameState (outcomeEffect st) = Won /\ winner (outcomeEffect st) = Some w) /\
  (checkWinner (board st) = None -> allEmpty (board st) ->
     0 < moves (gameStats st) -> gameState (outcomeEffect st) = Draw) /\
  (checkWinner (board st) = None ->
     ~ allEmpty (board st) \/ moves (gameStats st) = 0 ->
     outcomeEffect st = st).
Proof.
  intros HP. unfold outcomeEffect. rewrite HP. split; [|split].
  - by intros w ->.
  - intros -> He Hm. apply allEmpty_forallb in He. rewrite He.
    apply Nat.ltb_lt in Hm. by rewrite Hm.
  - intros -> Hor.
    destruct (forallb _ _) eqn:E; simpl; [|done].
    destruct (0 <? moves (gameStats st)) eqn:Em; [|done].
    apply allEmpty_forallb in E. apply Nat.ltb_lt in Em.
    destruct Hor; [done|lia].
Qed.

(** ** [handleCellClick] *)

Lemma handleCellClick_Some index rnd stamp (st st' : State) :
  handleCellClick index rnd stamp st = Some st' ->
  occupied (cellAt (board st) index) = false /\
  gameState st = Playing /\
  getCount (emojiCounts st) (currentPlayer st) < MAX_EMOJIS_PER_PLAYER /\
  board st' = <[index := Some (newCell rnd stamp st)]> (board st) /\
  emojiCounts st' = incCount (emojiCounts st) (currentPlayer st) /\
  gameStats st' = mkStats (moves (gameStats st) + 1) (vanishedEmojis (gameStats st)) /\
  match checkWinner (board st') with
  | Some w =>
      gameState st' = Won /\ winner st' = Some w /\
      currentPlayer st' = currentPlayer st /\ pendingAging st' = pendingAging st
  | None =>
      if forallb occupied (board st')
      then gameState st' = Draw /\ winner st' = winner st /\
           currentPlayer st' = currentPlayer st /\
           pendingAging st' = pendingAging st
      else gameState st' = Playing /\ winner st' = winner st /\
           currentPlayer st' = otherPlayer (currentPlayer st) /\
           pendingAging st' = pendingAging st + 1
  end.
Proof.
  unfold handleCellClick.
  destruct (occupied (cellAt (board st) index)) eqn:Eo; [discriminate|].
  destruct (bool_decide (gameState st = Playing)) eqn:Eg; [|discriminate].
  destruct (MAX_EMOJIS_PER_PLAYER <=? _) eqn:Ec; [discriminate|].
  apply bool_decide_eq_true in Eg. apply Nat.leb_gt in Ec. simpl.
  destruct (checkWinner _) as [w|] eqn:Ew.
  - intros [= <-]. simpl. rewrite Ew. done.
  - destruct (forallb occupied _) eqn:Ef; intros [= <-]; simpl;
      rewrite Ew, Ef; done.
Qed.

Lemma handleCellClick_None index rnd stamp (st : State) :
  handleCellClick index rnd stamp st = None <->
  (exists c, board st !! index = Some (Some c)) \/
  gameState st <> Playing \/
  MAX_EMOJIS_PER_PLAYER <= getCount (emojiCounts st) (currentPlayer st).
Proof.
  unfold handleCellClick.
  destruct (occupied (cellAt (board st) index)) eqn:Eo; cbn [orb negb].
  { apply occupied_cellAt in Eo. split; auto. }
  destruct (bool_decide (gameState st = Playing)) eqn:Eg; cbn [orb negb].
  2:{ apply bool_decide_eq_false in Eg. split; auto. }
  apply bool_decide_eq_true in Eg.
  destruct (MAX_EMOJIS_PER_PLAYER <=? _) eqn:Ec.
  { apply Nat.leb_le in Ec. split; auto. }
  apply Nat.leb_gt in Ec. split.
  - destruct (checkWinner _); [discriminate|]. by destruct (forallb _ _).
  - intros [Ho|[Hg|Hc]]; [|done|lia].
    apply occupied_cellAt in Ho. congruence.
Qed.

(** After an accepted click on one of the board's slots the effect has
    nothing left to do. *)
Lemma click_accepted index rnd stamp (st st' : State) :
  index < length (board st) ->
  handleCellClick index rnd stamp st = Some st' ->
  click index rnd stamp st = st'.
Proof.
  intros Hi Hc. unfold click. rewrite Hc.
  apply handleCellClick_Some in Hc as (_ & _ & _ & Hb & _ & _ & Hcase).
  destruct (checkWinner (board st')) as [w|] eqn:Ew.
  { apply outcomeEffect_over. destruct Hcase as [-> _]. done. }
  destruct (forallb occupied (board st')).
  { apply outcomeEffect_over. destruct Hcase as [-> _]. done. }
  destruct Hcase as [Hg _].
  apply (outcomeEffect_playing _ Hg); [done|]. left.
  unfold allEmpty. rewrite Forall_lookup. intros H.
  specialize (H index (Some (newCell rnd stamp st))).
  rewrite Hb, list_lookup_insert_eq in H by done. by specialize (H eq_refl).
Qed.

(** C3. A click on an occupied slot, or while the game is not in
    [Playing], or when the active player's counter has reached
    [MAX_EMOJIS_PER_PLAYER], returns before any update: the handler yields
    no new state, and the state after the click (board, counters, active
    player, game state, winner, statistics, pending timers) is the state
    before it. *)
Theorem handleCellClick_rejects index rnd stamp (st : State) :
  (exists c, board st !! index = Some (Some c)) \/
  gameState st <> Playing \/
  MAX_EMOJIS_PER_PLAYER <= getCount (emojiCounts st) (currentPlayer st) ->
  MAX_EMOJIS_PER_PLAYER = 6 /\
  handleCellClick index rnd stamp st = None /\
  click index rnd stamp st = st.
Proof.
  intros H.
  pose proof (proj2 (handleCellClick_None index rnd stamp st) H) as HN.
  split; [reflexivity|]. split; [done|]. unfold click. by rewrite HN.
Qed.

(** C7. An accepted click whose new board has a winning triple sets
    [Won] with that winner, whether or not the board is also full; one
    whose new board is full without a winning triple sets [Draw].  In both
    cases the active player stays, no aging timer is added, and the
    effect that follows changes nothing. *)
Theorem handleCellClick_terminal index rnd stamp (st st' : State) :
  index < length (board st) ->
  handleCellClick index rnd stamp st = Some st' ->
  (forall w, checkWinner (board st') = Some w ->
     gameState st' = Won /\ winner st' = Some w) /\
  (checkWinner (board st') = None -> forallb occupied (board st') = true ->
     gameState st' = Draw) /\
  (gameState st' <> Playing ->
     currentPlayer st' = currentPlayer st /\
     pendingAging st' = pendingAging st /\
     click index rnd stamp st = st').
Proof.
  intros Hi Hc. pose proof (click_accepted _ _ _ _ _ Hi Hc) as Hclick.
  apply handleCellClick_Some in Hc as (_ & _ & _ & _ & _ & _ & Hcase).
  destruct (checkWinner (board st')) as [w|] eqn:Ew.
  - destruct Hcase as (Hg & Hw & Hp & Hn). split; [|split].
    + by intros w' [= <-].
    + discriminate.
    + done.
  - destruct (forallb occupied (board st')) eqn:Ef.
    + destruct Hcase as (Hg & Hw & Hp & Hn). split; [|split]; done.
    + destruct Hcase as (Hg & Hw & Hp & Hn). split; [|split]; try done.
Qed.

(** ** The invariant *)

Lemma liveOwned_insert_free (p : Player) (b : Board) i c :
  b !! i = Some None ->
  liveOwned p (<[i := Some c]> b)
  = liveOwned p b + (if bool_decide (player c = p) then 1 else 0).
Proof.
  unfold liveOwned. revert i. induction b as [|x b IH]; intros [|i] Hi;
    simpl in *; try discriminate.
  - injection Hi as ->. simpl. destruct (bool_decide (player c = p)); simpl; lia.
  - rewrite Nat.add_comm. destruct (ownedBy p x); simpl; rewrite (IH i Hi); lia.
Qed.

Lemma ownedBy_aged (p : Player) (cell : option CellValue) :
  ownedBy p (dropExpired (decrementCell cell)) = true -> ownedBy p cell = true.
Proof.
  destruct cell as [c|]; simpl; [|done].
  unfold dropExpired. destruct (0 <? turnsLeft c)%Z; simpl;
    destruct (_ =? 0)%Z; simpl; done.
Qed.

Lemma liveOwned_aged (p : Player) (b : Board) :
  liveOwned p (map dropExpired (map decrementCell b)) <= liveOwned p b.
Proof.
  unfold liveOwned. induction b as [|x b IH]; simpl; [done|].
  destruct (ownedBy p (dropExpired (decrementCell x))) eqn:E.
  - rewrite (ownedBy_aged _ _ E). simpl. lia.
  - destruct (ownedBy p x); simpl; lia.
Qed.

Lemma liveOwned_empty (p : Player) n : liveOwned p (replicate n None) = 0.
Proof. unfold liveOwned. induction n; simpl; done. Qed.

Lemma getCount_incCount (counts : EmojiCounts) (q p : Player) :
  getCount (incCount counts q) p
  = getCount counts p + (if bool_decide (q = p) then 1 else 0).
Proof. destruct q, p; simpl; lia. Qed.

Lemma stateInv_outcomeEffect (st : State) :
  stateInv st -> stateInv (outcomeEffect st).
Proof.
  intros [Hl Ht Ho Hc].
  destruct (outcomeEffect_fields st) as (Eb & _ & Ec & _ & _).
  constructor; rewrite ?Eb, ?Ec; done.
Qed.

Lemma stateInv_fresh (n : nat) :
  stateInv (mkState (replicate 9 None) P1 Playing None
                    (mkCounts 0 0) (mkStats 0 0) n).
Proof.
  constructor; cbn [board emojiCounts].
  - reflexivity.
  - intros i c Hi. apply lookup_replicate in Hi as [? _]. done.
  - intros p. rewrite liveOwned_empty. lia.
  - intros p. unfold MAX_EMOJIS_PER_PLAYER. destruct p; simpl; lia.
Qed.

Lemma stateInv_initial : stateInv initialState.
Proof. apply stateInv_fresh. Qed.

Lemma stateInv_resetGame (st : State) : stateInv (resetGame st).
Proof. apply stateInv_fresh. Qed.

Lemma stateInv_handleCellClick index rnd stamp (st st' : State) :
  index < 9 -> stateInv st ->
  handleCellClick index rnd stamp st = Some st' -> stateInv st'.
Proof.
  intros Hi [Hl Ht Ho Hc] Hclick.
  apply handleCellClick_Some in Hclick as (Hfree & _ & Hlt & Hb & Hcnt & _ & _).
  apply cellAt_free in Hfree; [|lia].
  constructor; rewrite ?Hb, ?Hcnt.
  - by rewrite length_insert.
  - intros i c. destruct (decide (i = index)) as [->|Hne].
    + rewrite list_lookup_insert_eq by lia. intros [= <-]. simpl.
      unfold BLINK_DURATION. lia.
    + rewrite list_lookup_insert_ne by done. apply Ht.
  - intros p. rewrite (liveOwned_insert_free _ _ _ _ Hfree), getCount_incCount.
    simpl. specialize (Ho p). lia.
  - intros p. rewrite getCount_incCount. specialize (Hc p).
    destruct (bool_decide (currentPlayer st = p)) eqn:E; [|lia].
    apply bool_decide_eq_true in E. subst p. lia.
Qed.

Lemma stateInv_click index rnd stamp (st : State) :
  index < 9 -> stateInv st -> stateInv (click index rnd stamp st).
Proof.
  intros Hi Hinv. unfold click.
  destruct (handleCellClick index rnd stamp st) as [st'|] eqn:E; [|done].
  apply stateInv_outcomeEffect. eapply stateInv_handleCellClick; eauto.
Qed.

Lemma stateInv_ageEmojis (st : State) : stateInv st -> stateInv (ageEmojis st).
Proof.
  intros [Hl Ht Ho Hc].
  destruct (ageEmojis_fields st) as (_ & _ & _ & Ecnt & _ & _).
  constructor; rewrite ?Ecnt; try done.
  - by rewrite board_ageEmojis, !length_map.
  - intros i c Hi. destruct (ageEmojis_lookup_inv _ _ _ Hi) as [c0 E].
    specialize (Ht i c0 E). rewrite (ageEmojis_lookup_live _ _ _ E) in Hi by lia.
    unfold agedCell in Hi. destruct (turnsLeft c0 - 1 =? 0)%Z eqn:Ez; [done|].
    apply Z.eqb_neq in Ez. injection Hi as <-. simpl. lia.
  - intros p. rewrite board_ageEmojis.
    etrans; [apply liveOwned_aged|apply Ho].
Qed.

Lemma stateInv_fireTimer (st : State) : stateInv st -> stateInv (fireTimer st).
Proof.
  intros Hinv. unfold fireTimer. destruct (pendingAging st) as [|n]; [done|].
  apply stateInv_outcomeEffect, stateInv_ageEmojis.
  destruct Hinv. by constructor.
Qed.

Lemma stateInv_applyEvent (ev : Event) (st : State) :
  eventOk ev -> stateInv st -> stateInv (applyEvent ev st).
Proof.
  destruct ev as [index rnd stamp| |]; simpl.
  - intros [Hi _]. by apply stateInv_click.
  - intros _. apply stateInv_fireTimer.
  - intros _ _. apply stateInv_outcomeEffect, stateInv_resetGame.
Qed.

Lemma reachable_stateInv (st : State) : reachable st -> stateInv st.
Proof.
  induction 1 as [|st ev _ IH Hok]; [apply stateInv_initial|].
  by apply stateInv_applyEvent.
Qed.

Lemma gameStep_reachable (st st' : State) :
  reachable st -> gameStep st st' -> reachable st'.
Proof.
  intros Hr Hs. destruct Hs as [s index rnd stamp Hi Hrnd|s].
  - apply (reachable_step s (Click index rnd stamp)); [done|by split].
  - by apply (reachable_step s Tick).
Qed.

Lemma gameSteps_reachable (st st' : State) :
  reachable st -> gameSteps st st' -> reachable st'.
Proof.
  intros Hr Hs. induction Hs as [|x y z Hxy _ IH]; [done|].
  apply IH. by eapply gameStep_reachable.
Qed.

(** C4. In every state reached from the initial one by clicks, timers
    and resets, each player has at most [MAX_EMOJIS_PER_PLAYER] = 6 live
    cells on the board: the live cells of a player never outnumber that
    player's placement counter, and the counter never passes 6. *)
Theorem reachable_liveOwned_bound (st : State) (p : Player) :
  reachable st ->
  liveOwned p (board st) <= getCount (emojiCounts st) p /\
  liveOwned p (board st) <= MAX_EMOJIS_PER_PLAYER /\
  MAX_EMOJIS_PER_PLAYER = 6.
Proof.
  intros [Hl Ht Ho Hc]%reachable_stateInv.
  split; [apply Ho|]. split; [|reflexivity].
  etrans; [apply Ho|apply Hc].
Qed.

(** C6. In every reachable state the lifetime of every live cell lies
    in [0, BLINK_DURATION] with [BLINK_DURATION] = 3, and is not 0; a cell
    placed by an accepted click starts at [BLINK_DURATION]; and an aging
    pass empties the slot of a live cell exactly when taking one off its
    lifetime gives 0, otherwise the cell stays with that lifetime. *)
Theorem reachable_lifetime_range (st : State) :
  reachable st ->
  BLINK_DURATION = 3%Z /\
  (forall i c, board st !! i = Some (Some c) ->
     (0 <= turnsLeft c <= BLINK_DURATION)%Z /\ turnsLeft c <> 0%Z) /\
  (forall index rnd stamp st',
     index < 9 -> handleCellClick index rnd stamp st = Some st' ->
     exists c, board st' !! index = Some (Some c) /\
               turnsLeft c = BLINK_DURATION) /\
  (forall i c, board st !! i = Some (Some c) ->
     (board (ageEmojis st) !! i = Some None <-> (turnsLeft c - 1 = 0)%Z) /\
     ((turnsLeft c - 1 <> 0)%Z ->
      board (ageEmojis st) !! i
      = Some (Some (withTurnsLeft c (turnsLeft c - 1)%Z)))).
Proof.
  intros [Hl Ht Ho Hc]%reachable_stateInv.
  split; [reflexivity|]. split; [|split].
  - intros i c Hi. specialize (Ht i c Hi). lia.
  - intros index rnd stamp st' Hi Hclick.
    apply handleCellClick_Some in Hclick as (_ & _ & _ & Hb & _).
    exists (newCell rnd stamp st). split; [|reflexivity].
    rewrite Hb. apply list_lookup_insert_eq. lia.
  - intros i c Hi. specialize (Ht i c Hi).
    rewrite (ageEmojis_lookup_live _ _ _ Hi) by lia.
    unfold agedCell. destruct (turnsLeft c - 1 =? 0)%Z eqn:Ez.
    + apply Z.eqb_eq in Ez. split; [done|]. intros; lia.
    + apply Z.eqb_neq in Ez. split; [|done]. split; [discriminate|done].
Qed.

(** ** Runs *)

Lemma reachable_run (evs : list Event) (st : State) :
  reachable st -> Forall eventOk evs -> reachable (run evs st).
Proof.
  unfold run. revert st. induction evs as [|ev evs IH]; intros st Hr Hok; [done|].
  apply Forall_cons in Hok as [Hev Hok]. simpl. apply IH; [|done].
  by apply reachable_step.
Qed.

(** ** Placement counters *)

Lemma click_counts index rnd stamp (st : State) (p : Player) :
  getCount (emojiCounts st) p
  <= getCount (emojiCounts (click index rnd stamp st)) p.
Proof.
  unfold click.
  destruct (handleCellClick index rnd stamp st) as [st'|] eqn:E; [|done].
  destruct (outcomeEffect_fields st') as (_ & _ & -> & _).
  apply handleCellClick_Some in E as (_ & _ & _ & _ & -> & _).
  rewrite getCount_incCount. lia.
Qed.

Lemma fireTimer_counts (st : State) :
  emojiCounts (fireTimer st) = emojiCounts st.
Proof.
  unfold fireTimer. destruct (pendingAging st) as [|n]; [done|].
  destruct (outcomeEffect_fields (ageEmojis (setPendingAging n st)))
    as (_ & _ & -> & _).
  by destruct (ageEmojis_fields (setPendingAging n st)) as (_ & _ & _ & -> & _).
Qed.

Lemma gameStep_counts (st st' : State) (p : Player) :
  gameStep st st' ->
  getCount (emojiCounts st) p <= getCount (emojiCounts st') p.
Proof.
  intros Hs. destruct Hs as [s index rnd stamp _ _|s].
  - apply click_counts.
  - by rewrite fireTimer_counts.
Qed.

Lemma gameSteps_counts (st st' : State) (p : Player) :
  gameSteps st st' ->
  getCount (emojiCounts st) p <= getCount (emojiCounts st') p.
Proof.
  intros Hs. induction Hs as [|x y z Hxy _ IH]; [done|].
  etrans; [by apply gameStep_counts|done].
Qed.

(** C10. Within one game (clicks and timers, no reset) a player's
    placement counter never goes down and never passes
    [MAX_EMOJIS_PER_PLAYER] = 6; an aging pass leaves the counters as they
    are, an accepted click adds exactly one to the counter of the player
    who moved; and once both counters are at 6 every later click is
    rejected and changes nothing. *)
Theorem emojiCounts_monotone (st st' : State) :
  reachable st -> gameSteps st st' ->
  (forall p, getCount (emojiCounts st) p <= getCount (emojiCounts st') p /\
             getCount (emojiCounts st') p <= MAX_EMOJIS_PER_PLAYER) /\
  emojiCounts (ageEmojis st') = emojiCounts st' /\
  emojiCounts (fireTimer st') = emojiCounts st' /\
  (forall index rnd stamp st'',
     handleCellClick index rnd stamp st' = Some st'' ->
     emojiCounts st'' = incCount (emojiCounts st') (currentPlayer st')) /\
  (getCount (emojiCounts st) P1 = MAX_EMOJIS_PER_PLAYER ->
   getCount (emojiCounts st) P2 = MAX_EMOJIS_PER_PLAYER ->
   forall index rnd stamp,
     handleCellClick index rnd stamp st' = None /\
     click index rnd stamp st' = st').
Proof.
  intros Hr Hs.
  pose proof (reachable_stateInv _ (gameSteps_reachable _ _ Hr Hs)) as [_ _ _ Hc].
  split; [|split; [|split; [|split]]].
  - intros p. split; [by apply gameSteps_counts|apply Hc].
  - apply ageEmojis_fields.
  - apply fireTimer_counts.
  - intros index rnd stamp st'' E.
    by apply handleCellClick_Some in E as (_ & _ & _ & _ & -> & _).
  - intros H1 H2 index rnd stamp.
    assert (HN : handleCellClick index rnd stamp st' = None).
    { apply handleCellClick_None. right; right.
      pose proof (gameSteps_counts _ _ (currentPlayer st') Hs) as Hm.
      destruct (currentPlayer st'); simpl in *; lia. }
    split; [done|]. unfold click. by rewrite HN.
Qed.

(** ** The outcome after an aging pass *)

Lemma board_fireTimer (st : State) :
  0 < pendingAging st -> board (fireTimer st) = board (ageEmojis st).
Proof.
  intros Hp. unfold fireTimer. destruct (pendingAging st) as [|n]; [lia|].
  destruct (outcomeEffect_fields (ageEmojis (setPendingAging n st))) as (-> & _).
  by rewrite !board_ageEmojis.
Qed.

(** C1, as the code has it. When a timer fires in [Playing], the board
    is aged and the outcome is evaluated again: a winning triple gives
    [Won] with its owner; no winning triple, every slot empty and at least
    one move made gives [Draw]; no winning triple and either a live cell
    left or no move made leaves the game in [Playing]. *)
Theorem fireTimer_outcome (st : State) :
  gameState st = Playing -> 0 < pendingAging st ->
  board (fireTimer st) = board (ageEmojis st) /\
  (forall w, checkWinner (board (ageEmojis st)) = Some w ->
     gameState (fireTimer st) = Won /\ winner (fireTimer st) = Some w) /\
  (checkWinner (board (ageEmojis st)) = None ->
   allEmpty (board (ageEmojis st)) -> 0 < moves (gameStats st) ->
   gameState (fireTimer st) = Draw) /\
  (checkWinner (board (ageEmojis st)) = None ->
   ~ allEmpty (board (ageEmojis st)) \/ moves (gameStats st) = 0 ->
   gameState (fireTimer st) = Playing).
Proof.
  intros Hg Hp. split; [by apply board_fireTimer|].
  unfold fireTimer. destruct (pendingAging st) as [|n]; [lia|].
  set (s := ageEmojis (setPendingAging n st)).
  assert (Hb : board s = board (ageEmojis st)) by (unfold s; by rewrite !board_ageEmojis).
  assert (Hm : moves (gameStats s) = moves (gameStats st)).
  { unfold s. by destruct (ageEmojis_fields (setPendingAging n st)) as (_ & _ & _ & _ & -> & _). }
  assert (Hs : gameState s = Playing).
  { unfold s. by destruct (ageEmojis_fields (setPendingAging n st)) as (_ & -> & _). }
  destruct (outcomeEffect_playing s Hs) as (Hwon & Hdraw & Hstay).
  rewrite Hb, Hm in *. split; [done|]. split; [done|].
  intros Hw Hor. by rewrite (Hstay Hw Hor).
Qed.

(** ** The top-row scenario *)

(** C2. From the initial state, player 1 clicks 0, then 1, then 2 and
    player 2 clicks two different slots outside the top row in between.
    If fewer than [BLINK_DURATION] = 3 aging passes run before player 1's
    third click, so that none of the cells has expired, that click
    completes the top row: [checkWinner] returns player 1 and the game is
    [Won] with winner 1. *)
Theorem topRow_win (j1 j2 a1 a2 a3 a4 : nat) (rnd : nat -> nat)
    (stamp : nat -> string) :
  3 <= j1 < 9 -> 3 <= j2 < 9 -> j1 <> j2 ->
  (Z.of_nat (a1 + a2 + a3 + a4) < BLINK_DURATION)%Z ->
  let st := run (topRowRun j1 j2 a1 a2 a3 a4 rnd stamp) initialState in
  checkWinner (board st) = Some P1 /\
  gameState st = Won /\
  winner st = Some P1.
Proof.
  intros Hj1 Hj2 Hne Ha. unfold BLINK_DURATION in Ha.
  split_small a1; split_small a2; split_small a3; split_small a4;
    split_slot j1; split_slot j2;
    vm_compute; repeat split; reflexivity.
Qed.

(** When every click is followed by its timer before the next click, the
    cell at 0 has expired by the time player 1 clicks 2, and the game is
    still in [Playing] after that click. *)
Remark topRow_slowly_expires :
  let st := run topRowSlowly initialState in
  board st !! 0 = Some None /\ checkWinner (board st) = None /\
  gameState st = Playing.
Proof. vm_compute. repeat split; reflexivity. Qed.

(** ** Instances on the sample runs *)

Lemma stateInv_livePositive (st : State) :
  stateInv st -> livePositive (board st).
Proof. intros [_ Ht _ _] i c Hi. by apply Ht in Hi as [? _]. Qed.

(** After three quick moves and two aging passes the third pass empties
    the board, and the game is drawn. *)
Lemma fireTimer_outcome_witness :
  let st := run threeQuickMoves initialState in
  gameState st = Playing /\ 0 < pendingAging st /\
  gameState (fireTimer st) = Draw.
Proof.
  intros st.
  assert (Hg : gameState st = Playing) by (vm_compute; reflexivity).
  assert (Hp : 0 < pendingAging st) by (vm_compute; lia).
  split; [exact Hg|]. split; [exact Hp|].
  apply (fireTimer_outcome st Hg Hp).
  - vm_compute; reflexivity.
  - vm_compute. repeat constructor.
  - vm_compute; lia.
Defined.

(** The state that refutes C1 as written: it is reachable and in
    [Playing]; after the aging pass there is no winning triple and the
    board has empty slots (all nine), yet the game does not stay in
    progress, it becomes [Draw]. *)
Lemma fireTimer_draw_on_emptied_board :
  let st := run threeQuickMoves initialState in
  reachable st /\ gameState st = Playing /\ 0 < pendingAging st /\
  checkWinner (board (ageEmojis st)) = None /\
  hasEmptySlot (board (ageEmojis st)) /\
  0 < moves (gameStats st) /\
  gameState (fireTimer st) = Draw /\
  gameState (fireTimer st) <> Playing.
Proof.
  intros st. split.
  { apply reachable_run; [apply reachable_init|]. unfold threeQuickMoves. events_ok. }
  split; [vm_compute; reflexivity|]. split; [vm_compute; lia|].
  split; [vm_compute; reflexivity|]. split; [exists 0; vm_compute; reflexivity|].
  split; [vm_compute; lia|]. split; [vm_compute; reflexivity|].
  vm_compute. discriminate.
Qed.

Lemma topRow_win_witness :
  let rnd := fun _ : nat => 0 in
  let stamp := fun _ : nat => "t"%string in
  let st := run (topRowRun 8 7 1 1 0 0 rnd stamp) initialState in
  (3 <= 8 < 9 /\ 3 <= 7 < 9 /\ 8 <> 7 /\
   (Z.of_nat (1 + 1 + 0 + 0) < BLINK_DURATION)%Z) /\
  checkWinner (board st) = Some P1 /\ gameState st = Won /\
  winner st = Some P1.
Proof.
  intros rnd stamp st.
  assert (H1 : 3 <= 8 < 9) by lia. assert (H2 : 3 <= 7 < 9) by lia.
  assert (H3 : 8 <> 7) by lia.
  assert (H4 : (Z.of_nat (1 + 1 + 0 + 0) < BLINK_DURATION)%Z) by (vm_compute; reflexivity).
  split; [done|].
  exact (topRow_win 8 7 1 1 0 0 rnd stamp H1 H2 H3 H4).
Defined.

Lemma handleCellClick_rejects_witness :
  let st := run [Click 0 0 "a"%string] initialState in
  (exists c, board st !! 0 = Some (Some c)) /\
  handleCellClick 0 3 "b"%string st = None /\
  click 0 3 "b"%string st = st.
Proof.
  intros st.
  assert (H : exists c, board st !! 0 = Some (Some c)) by (eexists; vm_compute; reflexivity).
  split; [exact H|].
  apply (handleCellClick_rejects 0 3 "b"%string st (or_introl H)).
Defined.

Lemma reachable_liveOwned_bound_witness :
  let st := run twelveMoves initialState in
  reachable st /\ liveOwned P1 (board st) <= MAX_EMOJIS_PER_PLAYER.
Proof.
  intros st.
  assert (Hr : reachable st).
  { apply reachable_run; [apply reachable_init|]. unfold twelveMoves. events_ok. }
  split; [exact Hr|]. apply (reachable_liveOwned_bound st P1 Hr).
Defined.

Lemma ageEmojis_pass_witness :
  let st := run threeQuickMoves initialState in
  livePositive (board st) /\
  vanishedEmojis (gameStats (ageEmojis st))
  = vanishedEmojis (gameStats st) + removedCells (board st) (board (ageEmojis st)).
Proof.
  intros st.
  assert (Hpos : livePositive (board st)).
  { apply stateInv_livePositive, reachable_stateInv, reachable_run;
      [apply reachable_init|]. unfold threeQuickMoves. events_ok. }
  split; [exact Hpos|]. apply (ageEmojis_pass st Hpos).
Defined.

Lemma reachable_lifetime_range_witness :
  let st := run threeQuickMoves initialState in
  reachable st /\
  forall i c, board st !! i = Some (Some c) ->
    (0 <= turnsLeft c <= BLINK_DURATION)%Z /\ turnsLeft c <> 0%Z.
Proof.
  intros st.
  assert (Hr : reachable st).
  { apply reachable_run; [apply reachable_init|]. unfold threeQuickMoves. events_ok. }
  split; [exact Hr|]. apply (reachable_lifetime_range st Hr).
Defined.

(** The ninth quick click completes the diagonal 0, 4, 8 for player 1 and
    fills the board at the same time: the game is won, not drawn. *)
Lemma handleCellClick_terminal_witness :
  let st := run eightQuickMoves initialState in
  let st' := click 4 0 "i"%string st in
  4 < length (board st) /\
  handleCellClick 4 0 "i"%string st = Some st' /\
  forallb occupied (board st') = true /\
  gameState st' = Won /\ winner st' = Some P1.
Proof.
  intros st st'.
  assert (Hi : 4 < length (board st)) by (vm_compute; lia).
  assert (Hc : handleCellClick 4 0 "i"%string st = Some st') by (vm_compute; reflexivity).
  split; [exact Hi|]. split; [exact Hc|]. split; [vm_compute; reflexivity|].
  apply (handleCellClick_terminal 4 0 "i"%string st st' Hi Hc).
  vm_compute; reflexivity.
Defined.

Lemma ageEmojis_twice_lifetime_one_witness :
  let st := run threeQuickMoves initialState in
  let c := mkCell "🔥"%string P1 1%Z "1-a"%string in
  board st !! 0 = Some (Some c) /\ turnsLeft c = 1%Z /\
  board (ageEmojis st) !! 0 = Some None /\
  board (ageEmojis (ageEmojis st)) !! 0 = Some None.
Proof.
  intros st c.
  assert (Hi : board st !! 0 = Some (Some c)) by (vm_compute; reflexivity).
  assert (Ht : turnsLeft c = 1%Z) by reflexivity.
  split; [exact Hi|]. split; [exact Ht|].
  apply (ageEmojis_twice_lifetime_one st 0 c Hi Ht).
Defined.

(** After twelve moves both counters are at 6: a click on the free slot
    3 is rejected, also after a further timer event. *)
Lemma emojiCounts_monotone_witness :
  let st := run twelveMoves initialState in
  let st' := fireTimer st in
  reachable st /\ gameSteps st st' /\
  getCount (emojiCounts st) P1 = MAX_EMOJIS_PER_PLAYER /\
  getCount (emojiCounts st) P2 = MAX_EMOJIS_PER_PLAYER /\
  handleCellClick 3 0 "m"%string st' = None /\
  click 3 0 "m"%string st' = st'.
Proof.
  intros st st'.
  assert (Hr : reachable st).
  { apply reachable_run; [apply reachable_init|]. unfold twelveMoves. events_ok. }
  assert (Hs : gameSteps st st') by (apply rtc_once, gameStep_tick).
  assert (H1 : getCount (emojiCounts st) P1 = MAX_EMOJIS_PER_PLAYER) by (vm_compute; reflexivity).
  assert (H2 : getCount (emojiCounts st) P2 = MAX_EMOJIS_PER_PLAYER) by (vm_compute; reflexivity).
  split; [exact Hr|]. split; [exact Hs|]. split; [exact H1|]. split; [exact H2|].
  apply (emojiCounts_monotone st st' Hr Hs); assumption.
Defined.

(** ** Supplements *)

(** The guard [cell.turnsLeft > 0] of the aging pass: a cell whose
    lifetime is already 0 is removed and counted without a decrement, and
    a cell with a negative lifetime is left as it is. *)
Remark ageEmojis_stale_cells :
  let st := ageEmojis staleBoardState in
  board st = [None; Some (mkCell "x"%string P2 (-1)%Z "z"%string)] /\
  vanishedEmojis (gameStats st) = 1.
Proof. vm_compute. split; reflexivity. Qed.

(** With a full board and no winning triple the evaluation after an
    aging pass leaves the game in [Playing]: it does not look for a full
    board. *)
Remark fireTimer_full_board_stays :
  let st := fireTimer fullBoardState in
  forallb occupied (board st) = true /\ checkWinner (board st) = None /\
  0 < moves (gameStats st) /\ gameState st = Playing.
Proof. vm_compute. repeat split; lia. Qed.

Lemma forallb_occupied_false (b : Board) :
  forallb occupied b = false -> hasEmptySlot b.
Proof.
  induction b as [|x b IH]; simpl; [discriminate|].
  destruct x as [c|]; simpl.
  - intros [i Hi]%IH. by exists (S i).
  - intros _. by exists 0.
Qed.

Lemma outcomeEffect_still_playing (st : State) :
  gameState (outcomeEffect st) = Playing -> gameState st = Playing.
Proof.
  unfold outcomeEffect. destruct (gameState st) eqn:E; [done| |];
    intros H; congruence.
Qed.

(** X13. While the game is in [Playing] the board has an empty slot, so
    the evaluation after an aging pass never meets a full board. *)
Lemma reachable_playing_hasEmptySlot (st : State) :
  reachable st -> gameState st = Playing -> hasEmptySlot (board st).
Proof.
  induction 1 as [|st ev Hr IH Hok]; [intros _; by exists 0|].
  destruct ev as [index rnd stamp| |]; simpl.
  - unfold click.
    destruct (handleCellClick index rnd stamp st) as [st'|] eqn:E; [|done].
    destruct (outcomeEffect_fields st') as (-> & _).
    intros Hg%outcomeEffect_still_playing.
    apply handleCellClick_Some in E as (_ & _ & _ & _ & _ & _ & Hcase).
    destruct (checkWinner (board st')); [destruct Hcase; congruence|].
    destruct (forallb occupied (board st')) eqn:Ef; [destruct Hcase; congruence|].
    by apply forallb_occupied_false.
  - unfold fireTimer. destruct (pendingAging st) as [|n]; [done|].
    destruct (outcomeEffect_fields (ageEmojis (setPendingAging n st))) as (-> & _).
    intros Hg%outcomeEffect_still_playing.
    destruct (ageEmojis_fields (setPendingAging n st)) as (_ & Eg & _).
    rewrite Eg in Hg. destruct (IH Hg) as [i Hi]. exists i.
    rewrite ageEmojis_lookup. simpl. by rewrite Hi.
  - intros _. by exists 0.
Qed.

(** * Further properties of the page *)

(** ** Counting cells *)

Lemma liveCount_insert_free (b : Board) i c :
  b !! i = Some None -> liveCount (<[i := Some c]> b) = liveCount b + 1.
Proof.
  unfold liveCount. revert i. induction b as [|x b IH]; intros [|i] Hi;
    simpl in *; try discriminate.
  - injection Hi as ->. simpl. lia.
  - destruct (occupied x); simpl; rewrite (IH i Hi); lia.
Qed.

Lemma liveCount_owned (b : Board) :
  liveCount b = liveOwned P1 b + liveOwned P2 b.
Proof.
  unfold liveCount, liveOwned. induction b as [|x b IH]; simpl; [done|].
  destruct x as [c|]; simpl; [|done].
  destruct (player c); simpl; lia.
Qed.

Lemma liveCount_full (b : Board) :
  forallb occupied b = true -> liveCount b = length b.
Proof.
  unfold liveCount. induction b as [|x b IH]; simpl; [done|].
  destruct (occupied x); simpl; [|discriminate]. intros H. by rewrite IH.
Qed.

Lemma liveOwned_app (p : Player) (b1 b2 : Board) :
  liveOwned p (b1 ++ b2) = liveOwned p b1 + liveOwned p b2.
Proof. unfold liveOwned. by rewrite List.filter_app, length_app. Qed.

Lemma liveOwned_lookup (p : Player) (b : Board) i c :
  b !! i = Some (Some c) -> player c = p -> 1 <= liveOwned p b.
Proof.
  unfold liveOwned. revert i. induction b as [|x b IH]; intros [|i] Hi Hp;
    simpl in *; try discriminate.
  - injection Hi as ->. simpl. rewrite bool_decide_eq_true_2 by done. simpl. lia.
  - specialize (IH i Hi Hp). destruct (ownedBy p x); simpl; lia.
Qed.

Lemma liveOwned_three (p : Player) (b : Board) i j k x y z :
  i < j < k ->
  b !! i = Some (Some x) -> b !! j = Some (Some y) -> b !! k = Some (Some z) ->
  player x = p -> player y = p -> player z = p ->
  3 <= liveOwned p b.
Proof.
  intros Hlt Hi Hj Hk Hx Hy Hz.
  rewrite <- (take_drop j b), liveOwned_app.
  rewrite <- (take_drop 1 (drop j b)), liveOwned_app.
  assert (1 <= liveOwned p (take j b)).
  { apply (liveOwned_lookup p _ i x); [|done]. rewrite lookup_take_lt by lia. done. }
  assert (1 <= liveOwned p (take 1 (drop j b))).
  { apply (liveOwned_lookup p _ 0 y); [|done].
    rewrite lookup_take_lt, lookup_drop, Nat.add_0_r by lia. done. }
  assert (1 <= liveOwned p (drop 1 (drop j b))).
  { apply (liveOwned_lookup p _ (k - j - 1) z); [|done].
    rewrite !lookup_drop. replace (j + (1 + (k - j - 1))) with k by lia. done. }
  lia.
Qed.

Lemma checkWinner_hasLine (b : Board) (p : Player) :
  checkWinner b = Some p -> hasLine p b.
Proof.
  intros (pre & line & post & E & Hw & _)%firstOwner_Some.
  exists line. split; [|done]. rewrite E. apply elem_of_app. right. left.
Qed.

Lemma hasLine_three (b : Board) (p : Player) :
  hasLine p b -> 3 <= liveOwned p b.
Proof.
  intros (line & Hin & x & y & z & Hx & Hy & Hz & Px & Py & Pz).
  unfold lines in Hin.
  repeat (apply elem_of_cons in Hin as [->|Hin]);
    [..|by apply elem_of_nil in Hin]; simpl in Hx, Hy, Hz;
    refine (liveOwned_three p b _ _ _ x y z _ Hx Hy Hz Px Py Pz); lia.
Qed.

Lemma checkWinner_three (b : Board) (p : Player) :
  checkWinner b = Some p -> 3 <= liveOwned p b.
Proof. intros H. by apply hasLine_three, checkWinner_hasLine. Qed.

(** ** The invariant behind the statistics panel *)

Lemma palette_newCell rnd stamp (st : State) :
  rnd < 5 ->
  In (emoji (newCell rnd stamp st)) (PLAYER_EMOJIS (player (newCell rnd stamp st))).
Proof.
  intros Hr. unfold newCell. cbn [emoji player].
  apply nth_In. by destruct (currentPlayer st).
Qed.

Lemma pageInv_fresh (n : nat) : pageInv (freshState n).
Proof.
  constructor; cbn; try done; try lia.
  intros i c Hi.
  change (replicate 9 (@None CellValue) !! i = Some (Some c)) in Hi.
  apply lookup_replicate in Hi as [? _]. done.
Qed.

Lemma pageInv_outcomeEffect (st : State) :
  stateInv st -> pageInv st -> pageInv (outcomeEffect st).
Proof.
  intros [_ _ Ho _] [Hm Hb Hl Ht Hw Hp].
  unfold outcomeEffect. destruct (gameState st) eqn:Eg; [|by constructor; rewrite ?Eg..].
  destruct (checkWinner (board st)) as [w|] eqn:Ew.
  - constructor; cbn; try done. exists w. split; [done|].
    etrans; [by apply checkWinner_three|apply Ho].
  - destruct (_ && _); constructor; cbn; rewrite ?Eg; done.
Qed.

Lemma pageInv_handleCellClick index rnd stamp (st st' : State) :
  index < 9 -> rnd < 5 -> stateInv st -> pageInv st ->
  handleCellClick index rnd stamp st = Some st' -> pageInv st'.
Proof.
  intros Hi Hr Hinv [Hm Hb Hl Ht Hw Hp] Hclick.
  pose proof (stateInv_handleCellClick _ _ _ _ _ Hi Hinv Hclick) as [_ _ Ho' _].
  destruct Hinv as [Hlen _ _ _].
  apply handleCellClick_Some in Hclick
    as (Hfree & Hg & _ & Eb & Ec & Es & Hcase).
  apply cellAt_free in Hfree; [|lia]. specialize (Ht Hg).
  assert (Hact : activeEmojis (board st') = activeEmojis (board st) + 1).
  { rewrite Eb. by apply liveCount_insert_free. }
  constructor; rewrite ?Ec, ?Es, ?Hact; cbn [moves vanishedEmojis].
  - destruct (currentPlayer st); simpl; lia.
  - lia.
  - destruct (currentPlayer st) eqn:Ecur; simpl.
    + assert (count1 (emojiCounts st) = count2 (emojiCounts st)) by by apply Ht.
      lia.
    + assert (count1 (emojiCounts st) <> count2 (emojiCounts st)).
      { intros H. by apply Ht in H. }
      lia.
  - intros Hg'. destruct (checkWinner (board st')); [destruct Hcase; congruence|].
    destruct (forallb occupied (board st')); [destruct Hcase; congruence|].
    destruct Hcase as (_ & _ & -> & _).
    destruct (currentPlayer st) eqn:Ecur; simpl.
    + assert (count1 (emojiCounts st) = count2 (emojiCounts st)) by by apply Ht.
      split; [done|lia].
    + assert (count1 (emojiCounts st) <> count2 (emojiCounts st)).
      { intros H. by apply Ht in H. }
      split; [lia|done].
  - rewrite Hg in Hw.
    destruct (checkWinner (board st')) as [w|] eqn:Ew.
    + destruct Hcase as (-> & -> & _). exists w. split; [done|].
      rewrite <- Ec. etrans; [by apply checkWinner_three|apply Ho'].
    + destruct (forallb occupied (board st'));
        destruct Hcase as (-> & -> & _); done.
  - intros i c. rewrite Eb. destruct (decide (i = index)) as [->|Hne].
    + rewrite list_lookup_insert_eq by lia. intros [= <-].
      by apply palette_newCell.
    + rewrite list_lookup_insert_ne by done. apply Hp.
Qed.

Lemma pageInv_ageEmojis (st : State) : pageInv st -> pageInv (ageEmojis st).
Proof.
  intros [Hm Hb Hl Ht Hw Hp].
  destruct (ageEmojis_fields st) as (Ecur & Eg & Ewin & Ec & Emv & _).
  pose proof (vanishedEmojis_ageEmojis st) as Hv.
  pose proof (liveCount_aged (board st)) as Hlc.
  rewrite <- board_ageEmojis in Hlc.
  constructor; rewrite ?Ecur, ?Eg, ?Ewin, ?Ec, ?Emv; try done.
  - change (activeEmojis (board (ageEmojis st)))
      with (liveCount (board (ageEmojis st))).
    change (activeEmojis (board st)) with (liveCount (board st)) in Hb. lia.
  - intros i c Hi. rewrite ageEmojis_lookup in Hi.
    destruct (board st !! i) as [[c0|]|] eqn:E; try discriminate.
    specialize (Hp i c0 E). cbn in Hi. unfold dropExpired, decrementCell in Hi.
    destruct (0 <? turnsLeft c0)%Z; cbn in Hi;
      destruct (_ =? 0)%Z; cbn in Hi; try discriminate;
      injection Hi as <-; exact Hp.
Qed.

Lemma pageInv_applyEvent (ev : Event) (st : State) :
  eventOk ev -> stateInv st -> pageInv st -> pageInv (applyEvent ev st).
Proof.
  destruct ev as [index rnd stamp| |]; simpl.
  - intros [Hi Hr] Hinv Hpage. unfold click.
    destruct (handleCellClick index rnd stamp st) as [st'|] eqn:E; [|done].
    apply pageInv_outcomeEffect.
    + by eapply stateInv_handleCellClick.
    + by eapply pageInv_handleCellClick.
  - intros _ Hinv Hpage. unfold fireTimer.
    destruct (pendingAging st) as [|n]; [done|].
    apply pageInv_outcomeEffect.
    + apply stateInv_ageEmojis. destruct Hinv. by constructor.
    + apply pageInv_ageEmojis. destruct Hpage. by constructor.
  - intros _ _ _. apply pageInv_outcomeEffect.
    + apply stateInv_resetGame.
    + apply pageInv_fresh.
Qed.

Lemma reachable_pageInv (st : State) : reachable st -> pageInv st.
Proof.
  induction 1 as [|st ev Hr IH Hok]; [apply (pageInv_fresh 0)|].
  apply pageInv_applyEvent; [done| |done]. by apply reachable_stateInv.
Qed.

Lemma palettes_disjoint (e : string) :
  In e (PLAYER_EMOJIS P1) -> In e (PLAYER_EMOJIS P2) -> False.
Proof.
  simpl. intros H1 H2.
  repeat (destruct H1 as [<-|H1]; [repeat (destruct H2 as [H2|H2]; [discriminate H2|]); exact H2|]).
  exact H1.
Qed.

(** X1. The three badges of the statistics panel always add up: "Total
    Moves" is "Vanished Emojis" plus "Active Emojis", it is also the sum of
    the two placement counters, and it never passes 12. *)
Theorem stats_panel_balance (st : State) :
  reachable st ->
  moves (gameStats st) = vanishedEmojis (gameStats st) + activeEmojis (board st) /\
  moves (gameStats st) = count1 (emojiCounts st) + count2 (emojiCounts st) /\
  moves (gameStats st) <= 2 * MAX_EMOJIS_PER_PLAYER.
Proof.
  intros Hr. destruct (reachable_pageInv st Hr) as [Hm Hb _ _ _ _].
  destruct (reachable_stateInv st Hr) as [_ _ _ Hc].
  split; [done|]. split; [done|].
  pose proof (Hc P1) as H1. pose proof (Hc P2) as H2.
  unfold MAX_EMOJIS_PER_PLAYER in *. cbn [getCount] in H1, H2. lia.
Qed.

(** X2. The players alternate: player 1 has placed as many cells as
    player 2 or one more, and while the game is in [Playing] it is player
    1's turn exactly when both have placed the same number. *)
Theorem players_alternate (st : State) :
  reachable st ->
  count2 (emojiCounts st) <= count1 (emojiCounts st) <= count2 (emojiCounts st) + 1 /\
  (gameState st = Playing ->
   (currentPlayer st = P1 <-> count1 (emojiCounts st) = count2 (emojiCounts st)) /\
   (currentPlayer st = P2 <-> count1 (emojiCounts st) = count2 (emojiCounts st) + 1)).
Proof.
  intros Hr. destruct (reachable_pageInv st Hr) as [_ _ Hl Ht _ _].
  split; [done|]. intros Hg. specialize (Ht Hg). split; [done|].
  destruct (currentPlayer st); split; intros H; try done.
  - assert (count1 (emojiCounts st) = count2 (emojiCounts st)) by by apply Ht.
    lia.
  - destruct (decide (count1 (emojiCounts st) = count2 (emojiCounts st))) as [E|E];
      [|lia]. by apply Ht in E.
Qed.

(** X3. The [winner] cell and the game state agree, so the page may
    read [PLAYER_EMOJIS[winner!]] when the state is [Won]: in [Won] a
    winner is recorded, that player has placed at least three cells and at
    least five moves have been made; in [Playing] and [Draw] no winner is
    recorded. *)
Theorem winner_recorded_iff_won (st : State) :
  reachable st ->
  (gameState st = Won ->
   exists w, winner st = Some w /\ 3 <= getCount (emojiCounts st) w /\
             5 <= moves (gameStats st)) /\
  (gameState st <> Won -> winner st = None).
Proof.
  intros Hr. destruct (reachable_pageInv st Hr) as [Hm _ Hl _ Hw _].
  split.
  - intros Hg. rewrite Hg in Hw. destruct Hw as (w & Hw & Hc).
    exists w. split; [done|]. split; [done|].
    destruct w; simpl in Hc; lia.
  - intros Hg. by destruct (gameState st).
Qed.

(** X4. Every live cell shows a glyph of its owner's palette, and never
    one of the other player's palette. *)
Theorem live_cells_show_owner_palette (st : State) i c :
  reachable st -> board st !! i = Some (Some c) ->
  In (emoji c) (PLAYER_EMOJIS (player c)) /\
  ~ In (emoji c) (PLAYER_EMOJIS (otherPlayer (player c))).
Proof.
  intros Hr Hi. destruct (reachable_pageInv st Hr) as [_ _ _ _ _ Hp].
  specialize (Hp i c Hi). split; [done|].
  intros Ho. destruct (player c); simpl otherPlayer in Ho;
    eauto using palettes_disjoint.
Qed.

(** ** The button guard *)

(** X5. A button is disabled exactly when a click on its slot would be
    rejected; a click on an enabled button is accepted and puts a cell of
    the active player, with a full lifetime, into that slot. *)
Theorem cellDisabled_iff_rejected index rnd stamp (st : State) cell :
  board st !! index = Some cell ->
  (cellDisabled cell st = true <-> handleCellClick index rnd stamp st = None) /\
  (cellDisabled cell st = false ->
   board (click index rnd stamp st) !! index
   = Some (Some (newCell rnd stamp st)) /\
   player (newCell rnd stamp st) = currentPlayer st /\
   turnsLeft (newCell rnd stamp st) = BLINK_DURATION).
Proof.
  intros Hi.
  assert (Hcell : cellAt (board st) index = cell) by (unfold cellAt; by rewrite Hi).
  assert (Hlt : index < length (board st)) by (by eapply lookup_lt_Some).
  assert (Heq : handleCellClick index rnd stamp st = None <-> cellDisabled cell st = true).
  { unfold handleCellClick, cellDisabled. rewrite Hcell.
    destruct (_ || _ || _); [done|].
    destruct (checkWinner _); [done|]. by destruct (forallb _ _). }
  split; [by symmetry|]. intros Hen.
  destruct (handleCellClick index rnd stamp st) as [st'|] eqn:E.
  2:{ assert (cellDisabled cell st = true) by by apply Heq. congruence. }
  rewrite (click_accepted _ _ _ _ _ Hlt E).
  apply handleCellClick_Some in E as (_ & _ & _ & -> & _).
  rewrite list_lookup_insert_eq by done. done.
Qed.

(** ** Game over *)

Lemma gameStep_over (st st' : State) :
  gameState st <> Playing -> gameStep st st' ->
  gameState st' = gameState st /\ winner st' = winner st /\
  currentPlayer st' = currentPlayer st /\ emojiCounts st' = emojiCounts st /\
  moves (gameStats st') = moves (gameStats st).
Proof.
  intros Hg Hs. destruct Hs as [s index rnd stamp _ _|s].
  - assert (HN : handleCellClick index rnd stamp s = None)
      by (apply handleCellClick_None; auto).
    unfold click. by rewrite HN.
  - unfold fireTimer. destruct (pendingAging s) as [|n]; [done|].
    destruct (ageEmojis_fields (setPendingAging n s))
      as (Ecur & Eg & Ew & Ec & Em & _).
    rewrite outcomeEffect_over by (by rewrite Eg). done.
Qed.

(** X6. [Won] and [Draw] are final until the next reset: whatever
    clicks and timers follow, the game state, the recorded winner, the
    active player, the placement counters and the move count stay as they
    are. *)
Theorem game_over_is_final (st st' : State) :
  gameState st <> Playing -> gameSteps st st' ->
  gameState st' = gameState st /\ winner st' = winner st /\
  currentPlayer st' = currentPlayer st /\ emojiCounts st' = emojiCounts st /\
  moves (gameStats st') = moves (gameStats st).
Proof.
  intros Hg Hs. induction Hs as [|x y z Hxy _ IH]; [done|].
  destruct (gameStep_over _ _ Hg Hxy) as (Eg & Ew & Ecur & Ec & Em).
  rewrite <- Eg, <- Ew, <- Ecur, <- Ec, <- Em. apply IH. by rewrite Eg.
Qed.

(** ** Settled states *)

Lemma outcomeEffect_idempotent (st : State) :
  outcomeEffect (outcomeEffect st) = outcomeEffect st.
Proof.
  destruct (decide (gameState st = Playing)) as [Hg|Hg].
  2:{ rewrite (outcomeEffect_over st Hg). by apply outcomeEffect_over. }
  destruct (checkWinner (board st)) as [w|] eqn:Ew.
  { unfold outcomeEffect at 2 3. rewrite Hg, Ew. by apply outcomeEffect_over. }
  destruct (forallb (fun cell => negb (occupied cell)) (board st)
            && (0 <? moves (gameStats st))) eqn:Ed.
  { unfold outcomeEffect at 2 3. rewrite Hg, Ew, Ed. by apply outcomeEffect_over. }
  assert (E : outcomeEffect st = st).
  { unfold outcomeEffect. by rewrite Hg, Ew, Ed. }
  by rewrite !E.
Qed.

Lemma reachable_settled (st : State) : reachable st -> outcomeEffect st = st.
Proof.
  induction 1 as [|st ev Hr IH Hok]; [done|].
  destruct ev as [index rnd stamp| |]; simpl.
  - unfold click. destruct (handleCellClick index rnd stamp st); [|done].
    apply outcomeEffect_idempotent.
  - unfold fireTimer. destruct (pendingAging st); [done|].
    apply outcomeEffect_idempotent.
  - done.
Qed.

(** X7. A game shown as in progress has nothing left to evaluate: no
    player holds a line on the board, and once a move has been made some
    cell is live. *)
Theorem playing_board_undecided (st : State) :
  reachable st -> gameState st = Playing ->
  checkWinner (board st) = None /\
  (forall p, ~ hasLine p (board st)) /\
  (0 < moves (gameStats st) -> 0 < activeEmojis (board st)).
Proof.
  intros Hr Hg. pose proof (reachable_settled st Hr) as Hs.
  assert (Hw : checkWinner (board st) = None).
  { destruct (checkWinner (board st)) as [w|] eqn:Ew; [|done].
    apply (outcomeEffect_playing st Hg) in Ew as [Ew _]. congruence. }
  split; [done|]. split.
  - intros p (l & Hin & Hl).
    apply (proj1 (firstOwner_None (board st) lines) Hw l Hin). by exists p.
  - intros Hm.
    destruct (decide (activeEmojis (board st) = 0)) as [E|E]; [|lia].
    exfalso. assert (He : allEmpty (board st)).
    { unfold allEmpty. apply Forall_forall. intros cell Hin.
      destruct cell as [c|]; [|done]. exfalso.
      unfold activeEmojis in E. clear -E Hin.
      induction (board st) as [|x b IH]; [by apply elem_of_nil in Hin|].
      apply elem_of_cons in Hin as [<-|Hin]; simpl in E; [discriminate|].
      destruct x; simpl in E; [discriminate|]. by apply IH. }
    pose proof (proj1 (proj2 (outcomeEffect_playing st Hg)) Hw He Hm). congruence.
Qed.

(** ** Repeated aging *)

(** X8. A live cell with lifetime [t] > 0 is still on the board, with
    lifetime [t - n], after [n] < [t] aging passes, and its slot is empty
    after [t] passes and after every later one; a cell placed with
    [BLINK_DURATION] = 3 is therefore removed by exactly the third pass. *)
Theorem agePasses_lifetime (n : nat) (st : State) i c :
  board st !! i = Some (Some c) -> (0 < turnsLeft c)%Z ->
  board (agePasses n st) !! i
  = Some (if (Z.of_nat n <? turnsLeft c)%Z
          then Some (withTurnsLeft c (turnsLeft c - Z.of_nat n)%Z)
          else None).
Proof.
  intros Hi Hpos. induction n as [|n IH].
  - change (agePasses 0 st) with st. change (Z.of_nat 0) with 0%Z.
    rewrite (proj2 (Z.ltb_lt _ _) Hpos), Hi, Z.sub_0_r. destruct c; reflexivity.
  - change (agePasses (S n) st) with (ageEmojis (agePasses n st)).
    destruct (Z.of_nat n <? turnsLeft c)%Z eqn:En.
    + apply Z.ltb_lt in En.
      rewrite (ageEmojis_lookup_live _ _ _ IH) by (simpl; lia).
      unfold agedCell. cbn [turnsLeft withTurnsLeft emoji player id].
      destruct (turnsLeft c - Z.of_nat n - 1 =? 0)%Z eqn:Ez.
      * apply Z.eqb_eq in Ez.
        destruct (Z.of_nat (S n) <? turnsLeft c)%Z eqn:E'; [|done].
        apply Z.ltb_lt in E'. lia.
      * apply Z.eqb_neq in Ez.
        destruct (Z.of_nat (S n) <? turnsLeft c)%Z eqn:E';
          [|apply Z.ltb_ge in E'; lia].
        do 3 f_equal. lia.
    + apply Z.ltb_ge in En. rewrite ageEmojis_lookup, IH.
      destruct (Z.of_nat (S n) <? turnsLeft c)%Z eqn:E'; [|done].
      apply Z.ltb_lt in E'. lia.
Qed.

(** ** Reset *)

Lemma fireTimer_freshState (n : nat) : fireTimer (freshState (S n)) = freshState n.
Proof. reflexivity. Qed.

(** X9. [resetGame] puts the board, the active player, the game state,
    the winner, the counters and the statistics back to their initial
    values whatever the state was, but it does not cancel the timers: the
    same number is still pending.  When [k] of them fire on the untouched
    board they change nothing else, and no draw is declared on the empty
    board, since no move has been made. *)
Theorem reset_keeps_timers (st : State) (k : nat) :
  applyEvent Reset st = freshState (pendingAging st) /\
  freshState 0 = initialState /\
  run (ticks k) (applyEvent Reset st) = freshState (pendingAging st - k).
Proof.
  split; [reflexivity|]. split; [reflexivity|].
  change (applyEvent Reset st) with (freshState (pendingAging st)).
  generalize (pendingAging st) as n. unfold run.
  induction k as [|k IH]; intros n; simpl.
  - by rewrite Nat.sub_0_r.
  - destruct n as [|n]; [apply (IH 0)|].
    change (applyEvent Tick (freshState (S n))) with (fireTimer (freshState (S n))).
    rewrite fireTimer_freshState. apply IH.
Qed.

(** X10. Timers left over from before a reset age the cells of the new
    game.  With two or more of them pending, the first move of the new
    game is followed by three aging passes, its cell is gone, and the game
    is declared a draw after that single move. *)
Theorem reset_with_pending_timers_draws index rnd stamp (st : State) :
  2 <= pendingAging st -> index < 9 ->
  let st' := run [Reset; Click index rnd stamp; Tick; Tick; Tick] st in
  gameState st' = Draw /\ moves (gameStats st') = 1 /\
  vanishedEmojis (gameStats st') = 1 /\ allEmpty (board st').
Proof.
  intros Hp Hi st'. subst st'.
  change (run [Reset; Click index rnd stamp; Tick; Tick; Tick] st)
    with (run [Click index rnd stamp; Tick; Tick; Tick]
              (freshState (pendingAging st))).
  destruct (pendingAging st) as [|[|n]]; [lia|lia|].
  assert (E : applyEvent (Click index rnd stamp) (freshState (S (S n)))
              = setPendingAging (S (S (S n)))
                  (applyEvent (Click index rnd stamp) (freshState 0))).
  { rewrite <- (Nat.add_1_r (S (S n))). split_slot index; reflexivity. }
  change (run [Click index rnd stamp; Tick; Tick; Tick] (freshState (S (S n))))
    with (run [Tick; Tick; Tick]
              (applyEvent (Click index rnd stamp) (freshState (S (S n))))).
  rewrite E. clear E.
  split_slot index; vm_compute; repeat split; repeat constructor.
Qed.

(** ** Symmetry of the winner check *)

Lemma lineWonBy_intro (b : Board) i j k x y z p :
  b !! i = Some (Some x) -> b !! j = Some (Some y) -> b !! k = Some (Some z) ->
  player x = p -> player y = p -> player z = p ->
  lineWonBy b (i, j, k) p.
Proof. intros. exists x, y, z. done. Qed.

Lemma shown_lookup (b l : Board) a i x :
  l !! i = Some (cellAt b a) -> l !! i = Some (Some x) ->
  b !! a = Some (Some x).
Proof. intros -> [= H]. by apply cellAt_Some. Qed.

Lemma lookup_shown (b l : Board) a i x :
  l !! i = Some (cellAt b a) -> b !! a = Some (Some x) ->
  l !! i = Some (Some x).
Proof. intros -> H. f_equal. by apply cellAt_Some. Qed.

Lemma hasLine_shown (p : Player) (b image : Board) :
  image = rotate b \/ image = mirror b ->
  hasLine p image <-> hasLine p b.
Proof.
  intros Him. split.
  - intros (l & Hin & x & y & z & Hx & Hy & Hz & Px & Py & Pz).
    unfold lines in Hin.
    destruct Him as [-> | ->];
      repeat (apply elem_of_cons in Hin as [->|Hin]);
      try (by apply elem_of_nil in Hin);
      cbn [fst snd] in Hx, Hy, Hz;
      (eapply shown_lookup in Hx; [|reflexivity]);
      (eapply shown_lookup in Hy; [|reflexivity]);
      (eapply shown_lookup in Hz; [|reflexivity]);
      pick_line ltac:(eapply lineWonBy_intro;
                      [eassumption | eassumption | eassumption | ..];
                      assumption).
  - intros (l & Hin & x & y & z & Hx & Hy & Hz & Px & Py & Pz).
    unfold lines in Hin.
    destruct Him as [-> | ->];
      repeat (apply elem_of_cons in Hin as [->|Hin]);
      try (by apply elem_of_nil in Hin);
      cbn [fst snd] in Hx, Hy, Hz;
      pick_line ltac:(eapply lineWonBy_intro;
                      [ eapply lookup_shown; [reflexivity | eassumption]
                      | eapply lookup_shown; [reflexivity | eassumption]
                      | eapply lookup_shown; [reflexivity | eassumption]
                      | .. ]; assumption).
Qed.

Lemma hasLine_checkWinner (p : Player) (b : Board) :
  hasLine p b -> exists q, checkWinner b = Some q /\ hasLine q b.
Proof.
  intros (l & Hin & Hl). destruct (checkWinner b) as [q|] eqn:E.
  - exists q. split; [done|]. by apply checkWinner_hasLine.
  - exfalso. apply (proj1 (firstOwner_None b lines) E l Hin). by exists p.
Qed.

(** X11. The winner check does not depend on how the board is turned:
    a player holds a line on the board turned a quarter, or mirrored,
    exactly when that player holds a line on the board itself; so a winner
    is reported for the one exactly when a winner is reported for the
    other, and it is the same winner whenever only one player holds a
    line. *)
Theorem checkWinner_symmetric (b image : Board) :
  image = rotate b \/ image = mirror b ->
  (forall p, hasLine p image <-> hasLine p b) /\
  (is_Some (checkWinner image) <-> is_Some (checkWinner b)) /\
  (forall p, checkWinner b = Some p -> (forall q, hasLine q b -> q = p) ->
             checkWinner image = Some p).
Proof.
  intros Him. split; [intros p; by apply hasLine_shown|]. split; [split|].
  - intros [q Hq]. apply checkWinner_hasLine, (hasLine_shown q b image Him) in Hq.
    destruct (hasLine_checkWinner _ _ Hq) as (r & Hr & _). by exists r.
  - intros [q Hq]. apply checkWinner_hasLine in Hq.
    apply (hasLine_shown q b image Him) in Hq.
    destruct (hasLine_checkWinner _ _ Hq) as (r & Hr & _). by exists r.
  - intros p Hp Honly. apply checkWinner_hasLine in Hp.
    apply (hasLine_shown p b image Him) in Hp.
    destruct (hasLine_checkWinner _ _ Hp) as (r & Hr & Hl).
    apply (hasLine_shown r b image Him) in Hl. by rewrite Hr, (Honly r Hl).
Qed.

(** ** Playing slowly *)

Lemma liveOwned_zero (p : Player) (b : Board) :
  (forall i c, b !! i = Some (Some c) -> player c <> p) -> liveOwned p b = 0.
Proof.
  unfold liveOwned. induction b as [|x b IH]; intros H; simpl; [done|].
  destruct x as [c|]; simpl.
  - rewrite bool_decide_eq_false_2 by (by apply (H 0 c)).
    apply IH. intros i d Hi. by apply (H (S i) d).
  - apply IH. intros i d Hi. by apply (H (S i) d).
Qed.

Lemma liveOwned_unique (p : Player) (b : Board) :
  (forall i j c d, b !! i = Some (Some c) -> b !! j = Some (Some d) ->
                   player c = p -> player d = p -> i = j) ->
  liveOwned p b <= 1.
Proof.
  induction b as [|x b IH]; intros H; [cbn; lia|].
  change (x :: b) with ([x] ++ b). rewrite liveOwned_app.
  destruct x as [c|]; [destruct (decide (player c = p)) as [Hc|Hc]|].
  - rewrite (liveOwned_zero p b).
    + unfold liveOwned. simpl. destruct (bool_decide (player c = p)); simpl; lia.
    + intros i d Hi Hd. by specialize (H 0 (S i) c d eq_refl Hi Hc Hd).
  - unfold liveOwned at 1. simpl. rewrite bool_decide_eq_false_2 by done. simpl.
    apply IH. intros i j c' d Hi Hj Pc Pd.
    by specialize (H (S i) (S j) c' d Hi Hj Pc Pd) as [= ->].
  - unfold liveOwned at 1. simpl.
    apply IH. intros i j c' d Hi Hj Pc Pd.
    by specialize (H (S i) (S j) c' d Hi Hj Pc Pd) as [= ->].
Qed.

Lemma slowInv_initial : slowInv initialState.
Proof.
  constructor; try done.
  - intros i c Hi. change (replicate 9 (@None CellValue) !! i = Some (Some c)) in Hi.
    apply lookup_replicate in Hi as [? _]. done.
  - intros p. change (board initialState) with (replicate 9 (@None CellValue)).
    rewrite liveOwned_empty. lia.
Qed.

Lemma otherPlayer_involutive (p : Player) : otherPlayer (otherPlayer p) = p.
Proof. by destruct p. Qed.

Lemma otherPlayer_ne (p : Player) : otherPlayer p <> p.
Proof. by destruct p. Qed.

Lemma slowInv_turn index rnd stamp (st : State) :
  index < 9 -> slowInv st -> slowInv (turn index rnd stamp st).
Proof.
  intros Hi Hinv. pose proof Hinv as [Hg Hw0 Hp Hlen Hcells Hown]. unfold turn.
  destruct (handleCellClick index rnd stamp st) as [st'|] eqn:E.
  2:{ unfold click. rewrite E. unfold fireTimer. by rewrite Hp. }
  assert (Hi' : index < length (board st)) by lia.
  rewrite (click_accepted _ _ _ _ _ Hi' E).
  apply handleCellClick_Some in E as (Hfree & _ & _ & Eb & _ & _ & Hcase).
  apply cellAt_free in Hfree; [|lia].
  assert (Hown' : forall p, liveOwned p (board st') <= 2).
  { intros p. rewrite Eb, (liveOwned_insert_free _ _ _ _ Hfree).
    specialize (Hown p). destruct (bool_decide _); lia. }
  assert (Hnw : checkWinner (board st') = None).
  { destruct (checkWinner (board st')) as [w|] eqn:Ew; [|done].
    apply checkWinner_three in Ew. specialize (Hown' w). lia. }
  assert (Hnf : forallb occupied (board st') = false).
  { destruct (forallb occupied (board st')) eqn:Ef; [|done].
    apply liveCount_full in Ef. rewrite liveCount_owned in Ef.
    rewrite Eb, length_insert, Hlen, <- Eb in Ef.
    pose proof (Hown' P1). pose proof (Hown' P2). lia. }
  rewrite Hnw, Hnf in Hcase. destruct Hcase as (Hg' & Hw' & Hcur' & Hp').
  unfold fireTimer. rewrite Hp', Hp. cbn [Nat.add].
  set (s0 := setPendingAging 0 st').
  assert (Eb0 : board s0 = <[index := Some (newCell rnd stamp st)]> (board st))
    by exact Eb.
  destruct (ageEmojis_fields s0) as (Ecur & Eg & Ew & _ & _ & Epend).
  assert (Hnew : board (ageEmojis s0) !! index
                 = Some (Some (withTurnsLeft (newCell rnd stamp st) 2%Z))).
  { rewrite (ageEmojis_lookup_live s0 index (newCell rnd stamp st)); [done| |done].
    rewrite Eb0. apply list_lookup_insert_eq. lia. }
  assert (Hshape : forall i c, board (ageEmojis s0) !! i = Some (Some c) ->
            (i = index /\ player c = currentPlayer st /\ turnsLeft c = 2%Z) \/
            (i <> index /\ player c = otherPlayer (currentPlayer st) /\
             turnsLeft c = 1%Z)).
  { intros i c Hc. destruct (decide (i = index)) as [->|Hne].
    - left. rewrite Hnew in Hc. injection Hc as <-. done.
    - right. destruct (ageEmojis_lookup_inv _ _ _ Hc) as [c0 E0].
      assert (E0' : board st !! i = Some (Some c0)).
      { rewrite Eb0, list_lookup_insert_ne in E0 by done. done. }
      destruct (Hcells i c0 E0') as [[Pc Tc]|[Pc Tc]].
      + rewrite (ageEmojis_lookup_live s0 i c0 E0) in Hc by lia.
        unfold agedCell in Hc. rewrite Tc in Hc. discriminate.
      + rewrite (ageEmojis_lookup_live s0 i c0 E0) in Hc by lia.
        unfold agedCell in Hc. rewrite Tc in Hc. injection Hc as <-. done. }
  assert (Hown1 : forall p, liveOwned p (board (ageEmojis s0)) <= 1).
  { intros p. destruct (decide (p = currentPlayer st)) as [->|Hne].
    - apply liveOwned_unique. intros i j c d Hc Hd Pc Pd.
      destruct (Hshape i c Hc) as [[-> _]|(_ & Pc' & _)];
        destruct (Hshape j d Hd) as [[-> _]|(_ & Pd' & _)]; try done;
        exfalso; apply (otherPlayer_ne (currentPlayer st)); congruence.
    - rewrite board_ageEmojis. etrans; [apply liveOwned_aged|].
      rewrite Eb0, (liveOwned_insert_free _ _ _ _ Hfree).
      cbn [newCell player]. rewrite bool_decide_eq_false_2 by done.
      specialize (Hown p). lia. }
  assert (Hstay : outcomeEffect (ageEmojis s0) = ageEmojis s0).
  { apply outcomeEffect_playing.
    - by rewrite Eg.
    - destruct (checkWinner (board (ageEmojis s0))) as [w|] eqn:Ew'; [|done].
      apply checkWinner_three in Ew'. specialize (Hown1 w). lia.
    - left. unfold allEmpty. rewrite Forall_lookup. intros H.
      by specialize (H _ _ Hnew). }
  rewrite Hstay. constructor.
  - by rewrite Eg.
  - rewrite Ew. cbn. congruence.
  - by rewrite Epend.
  - by rewrite board_ageEmojis, !length_map, Eb0, length_insert.
  - intros i c Hc. rewrite Ecur. cbn [s0 setPendingAging currentPlayer].
    rewrite Hcur', otherPlayer_involutive.
    destruct (Hshape i c Hc) as [(_ & Pc & Tc)|(_ & Pc & Tc)]; auto.
  - exact Hown1.
Qed.

(** X12. When every click is followed by its timer before the next
    click, which is what happens when the players take more than the
    500 ms delay between moves, no game is ever won or drawn: after any
    number of such moves the game is still in [Playing] without a winner,
    no timer is pending, and at most two cells are live, one per player. *)
Theorem slow_play_never_ends (ts : list (nat * nat * string)) :
  Forall (fun t => t.1.1 < 9) ts ->
  let st := playTurns ts initialState in
  gameState st = Playing /\ winner st = None /\ pendingAging st = 0 /\
  (forall p, liveOwned p (board st) <= 1) /\
  activeEmojis (board st) <= 2.
Proof.
  intros Hts st.
  assert (Hinv : slowInv st).
  { subst st. unfold playTurns. generalize slowInv_initial.
    generalize initialState as s.
    induction Hts as [|t ts Ht _ IH]; intros s Hs; [done|].
    simpl. apply IH. by apply slowInv_turn. }
  destruct Hinv as [Hg Hw Hp _ _ Hown].
  repeat (split; [done|]).
  change (activeEmojis (board st)) with (liveCount (board st)).
  rewrite liveCount_owned. pose proof (Hown P1). pose proof (Hown P2). lia.
Qed.

(** ** The limit badge *)

(** X14. The limit badge can only appear on player 1's turn after all
    twelve placements. From then on waiting does not help: whatever
    clicks and timers follow, both counters stay at 6, every button is
    disabled and every click is rejected, until the game is reset. *)
Theorem limit_badge_is_final (st st' : State) :
  reachable st -> limitBadgeShown st = true -> gameSteps st st' ->
  currentPlayer st = P1 /\ moves (gameStats st) = 12 /\
  emojiCounts st' = mkCounts 6 6 /\
  (forall cell, cellDisabled cell st' = true) /\
  (forall index rnd stamp, click index rnd stamp st' = st').
Proof.
  intros Hr Hb Hs. apply andb_prop in Hb as [Hg Hc].
  apply bool_decide_eq_true in Hg. apply Nat.leb_le in Hc.
  destruct (reachable_pageInv st Hr) as [Hm _ Hl Ht _ _].
  destruct (reachable_stateInv st Hr) as [_ _ _ Hmax].
  destruct (reachable_stateInv st' (gameSteps_reachable _ _ Hr Hs)) as [_ _ _ Hmax'].
  pose proof (gameSteps_counts _ _ P1 Hs) as Hm1.
  pose proof (gameSteps_counts _ _ P2 Hs) as Hm2.
  pose proof (Hmax P1) as H1. pose proof (Hmax P2) as H2.
  pose proof (Hmax' P1) as H1'. pose proof (Hmax' P2) as H2'.
  specialize (Ht Hg). unfold MAX_EMOJIS_PER_PLAYER in *.
  cbn [getCount] in Hm1, Hm2, H1, H2, H1', H2'.
  assert (Hcur : currentPlayer st = P1).
  { destruct (currentPlayer st) eqn:Ecur; [done|]. cbn [getCount] in Hc.
    assert (count1 (emojiCounts st) <> count2 (emojiCounts st)).
    { intros E. by apply Ht in E. }
    lia. }
  rewrite Hcur in Hc. cbn [getCount] in Hc.
  assert (count1 (emojiCounts st) = count2 (emojiCounts st)) by by apply Ht.
  assert (Ecnt : emojiCounts st' = mkCounts 6 6).
  { destruct (emojiCounts st') as [a b]. cbn in *. f_equal; lia. }
  assert (Hfull : (6 <=? getCount (emojiCounts st') (currentPlayer st')) = true).
  { rewrite Ecnt. by destruct (currentPlayer st'). }
  split; [done|]. split; [lia|]. split; [done|]. split.
  - intros cell. unfold cellDisabled. unfold MAX_EMOJIS_PER_PLAYER.
    rewrite Hfull. by rewrite !orb_true_r.
  - intros index rnd stamp. unfold click.
    assert (HN : handleCellClick index rnd stamp st' = None).
    { apply handleCellClick_None. right; right. by apply Nat.leb_le. }
    by rewrite HN.
Qed.

(** ** Instances of the further properties *)

Lemma stats_panel_balance_witness :
  let st := run twelveMoves initialState in
  reachable st /\
  moves (gameStats st) = vanishedEmojis (gameStats st) + activeEmojis (board st).
Proof.
  intros st.
  assert (Hr : reachable st).
  { apply reachable_run; [apply reachable_init|]. unfold twelveMoves. events_ok. }
  split; [exact Hr|]. apply (stats_panel_balance st Hr).
Defined.

Lemma players_alternate_witness :
  let st := run threeQuickMoves initialState in
  reachable st /\
  count2 (emojiCounts st) <= count1 (emojiCounts st) <= count2 (emojiCounts st) + 1.
Proof.
  intros st.
  assert (Hr : reachable st).
  { apply reachable_run; [apply reachable_init|]. unfold threeQuickMoves. events_ok. }
  split; [exact Hr|]. apply (players_alternate st Hr).
Defined.

Lemma winner_recorded_iff_won_witness :
  let st := run topRowQuickly initialState in
  reachable st /\ gameState st = Won /\
  exists w, winner st = Some w /\ 3 <= getCount (emojiCounts st) w /\
            5 <= moves (gameStats st).
Proof.
  intros st.
  assert (Hr : reachable st).
  { apply reachable_run; [apply reachable_init|]. unfold topRowQuickly. events_ok. }
  assert (Hg : gameState st = Won) by (vm_compute; reflexivity).
  split; [exact Hr|]. split; [exact Hg|].
  apply (proj1 (winner_recorded_iff_won st Hr) Hg).
Defined.

Lemma live_cells_show_owner_palette_witness :
  let st := run threeQuickMoves initialState in
  let c := mkCell "🔥"%string P1 1%Z "1-a"%string in
  reachable st /\ board st !! 0 = Some (Some c) /\
  In (emoji c) (PLAYER_EMOJIS (player c)).
Proof.
  intros st c.
  assert (Hr : reachable st).
  { apply reachable_run; [apply reachable_init|]. unfold threeQuickMoves. events_ok. }
  assert (Hi : board st !! 0 = Some (Some c)) by (vm_compute; reflexivity).
  split; [exact Hr|]. split; [exact Hi|].
  apply (live_cells_show_owner_palette st 0 c Hr Hi).
Defined.

Lemma cellDisabled_iff_rejected_witness :
  let st := run [Click 0 0 "a"%string] initialState in
  board st !! 1 = Some None /\ cellDisabled None st = false /\
  board (click 1 2 "b"%string st) !! 1
  = Some (Some (newCell 2 "b"%string st)).
Proof.
  intros st.
  assert (Hi : board st !! 1 = Some None) by (vm_compute; reflexivity).
  assert (He : cellDisabled None st = false) by (vm_compute; reflexivity).
  split; [exact Hi|]. split; [exact He|].
  apply (proj2 (cellDisabled_iff_rejected 1 2 "b"%string st None Hi) He).
Defined.

Lemma game_over_is_final_witness :
  let st := run topRowQuickly initialState in
  let st' := fireTimer st in
  gameState st <> Playing /\ gameSteps st st' /\
  gameState st' = gameState st /\ winner st' = winner st.
Proof.
  intros st st'.
  assert (Hg : gameState st <> Playing) by (vm_compute; discriminate).
  assert (Hs : gameSteps st st') by (apply rtc_once, gameStep_tick).
  split; [exact Hg|]. split; [exact Hs|].
  split; apply (game_over_is_final st st' Hg Hs).
Defined.

Lemma playing_board_undecided_witness :
  let st := run threeQuickMoves initialState in
  reachable st /\ gameState st = Playing /\ checkWinner (board st) = None.
Proof.
  intros st.
  assert (Hr : reachable st).
  { apply reachable_run; [apply reachable_init|]. unfold threeQuickMoves. events_ok. }
  assert (Hg : gameState st = Playing) by (vm_compute; reflexivity).
  split; [exact Hr|]. split; [exact Hg|].
  apply (playing_board_undecided st Hr Hg).
Defined.

Lemma agePasses_lifetime_witness :
  let st := run [Click 4 0 "a"%string] initialState in
  let c := mkCell "🔥"%string P1 3%Z "1-a"%string in
  board st !! 4 = Some (Some c) /\ (0 < turnsLeft c)%Z /\
  board (agePasses 2 st) !! 4 = Some (Some (withTurnsLeft c 1%Z)) /\
  board (agePasses 3 st) !! 4 = Some None.
Proof.
  intros st c.
  assert (Hi : board st !! 4 = Some (Some c)) by (vm_compute; reflexivity).
  assert (Hpos : (0 < turnsLeft c)%Z) by (vm_compute; reflexivity).
  split; [exact Hi|]. split; [exact Hpos|]. split.
  - exact (agePasses_lifetime 2 st 4 c Hi Hpos).
  - exact (agePasses_lifetime 3 st 4 c Hi Hpos).
Defined.

Lemma reset_with_pending_timers_draws_witness :
  let st := run [Click 0 0 "a"; Click 1 0 "b"]%string initialState in
  let st' := run [Reset; Click 4 0 "c"%string; Tick; Tick; Tick] st in
  2 <= pendingAging st /\ 4 < 9 /\
  gameState st' = Draw /\ moves (gameStats st') = 1.
Proof.
  intros st st'.
  assert (Hp : 2 <= pendingAging st) by (vm_compute; lia).
  assert (Hi : 4 < 9) by lia.
  split; [exact Hp|]. split; [exact Hi|].
  destruct (reset_with_pending_timers_draws 4 0 "c"%string st Hp Hi)
    as (Hd & Hm & _).
  split; [exact Hd|exact Hm].
Defined.

Lemma checkWinner_symmetric_witness :
  let b := board (run topRowQuickly initialState) in
  (rotate b = rotate b \/ rotate b = mirror b) /\
  checkWinner b = Some P1 /\
  is_Some (checkWinner (rotate b)).
Proof.
  intros b.
  assert (Him : rotate b = rotate b \/ rotate b = mirror b) by (left; reflexivity).
  assert (Hw : checkWinner b = Some P1) by (vm_compute; reflexivity).
  split; [exact Him|]. split; [exact Hw|].
  apply (proj1 (proj2 (checkWinner_symmetric b (rotate b) Him))).
  rewrite Hw. by eexists.
Defined.

Lemma slow_play_never_ends_witness :
  let st := playTurns fiveSlowTurns initialState in
  Forall (fun t : nat * nat * string => t.1.1 < 9) fiveSlowTurns /\
  gameState st = Playing /\ winner st = None.
Proof.
  intros st.
  assert (Hts : Forall (fun t : nat * nat * string => t.1.1 < 9) fiveSlowTurns).
  { unfold fiveSlowTurns. repeat (constructor; [simpl; lia|]). constructor. }
  split; [exact Hts|].
  destruct (slow_play_never_ends fiveSlowTurns Hts) as (Hg & Hw & _).
  split; [exact Hg|exact Hw].
Defined.

Lemma reachable_playing_hasEmptySlot_witness :
  let st := run eightQuickMoves initialState in
  reachable st /\ gameState st = Playing /\ hasEmptySlot (board st).
Proof.
  intros st.
  assert (Hr : reachable st).
  { apply reachable_run; [apply reachable_init|]. unfold eightQuickMoves. events_ok. }
  assert (Hg : gameState st = Playing) by (vm_compute; reflexivity).
  split; [exact Hr|]. split; [exact Hg|].
  apply (reachable_playing_hasEmptySlot st Hr Hg).
Defined.

Lemma limit_badge_is_final_witness :
  let st := run twelveMoves initialState in
  let st' := fireTimer (click 3 0 "m"%string st) in
  reachable st /\ limitBadgeShown st = true /\ gameSteps st st' /\
  emojiCounts st' = mkCounts 6 6 /\ cellDisabled None st' = true.
Proof.
  intros st st'.
  assert (Hr : reachable st).
  { apply reachable_run; [apply reachable_init|]. unfold twelveMoves. events_ok. }
  assert (Hb : limitBadgeShown st = true) by (vm_compute; reflexivity).
  assert (Hs : gameSteps st st').
  { eapply rtc_l; [apply (gameStep_click st 3 0 "m"%string); lia|].
    apply rtc_once, gameStep_tick. }
  split; [exact Hr|]. split; [exact Hb|]. split; [exact Hs|].
  destruct (limit_badge_is_final st st' Hr Hb Hs) as (_ & _ & Hc & Hd & _).
  split; [exact Hc|apply Hd].
Defined.
